(** * Scalable AI Agent: the admission handler, the batch worker and the
      response parser, embedded from [app/main.py], [app/worker.py],
      [app/utils.py], [app/groq_client.py] and [app/cache.py].

    Conventions of the embedding.
    - A Python [str] is a [string]: a sequence of characters with code
      points below 256.
    - A decoded JSON value (what [json.loads] returns) is a [json]; Python's
      [None] is [JNull], a [dict] is an association list in insertion order
      with distinct keys, a Python [float] is a binary64 [float].
    - The request store [app.state.store] and the result cache are finite
      maps keyed by strings; a store entry (a dict with the fixed keys
      [status], [queued_at], [finished_at], [result] and, once a worker has
      failed, [error]) is a record.
    - Statements that mutate the store and may raise run in a state monad
      with exceptions: the state reached when an exception is raised is
      kept, exactly as the in-place writes of the source are.
    - The outside world (the clock, the chat-completion endpoint, the uuid
      and md5 generators, the standard JSON decoder) is a record of
      oracles, [env]; the general theorems quantify over it, the concrete
      runs fix it to [scenario_env].
    - One request handler run and one worker batch run are taken without
      interleaving of other tasks. Metrics counters and logging are left
      out: no statement below depends on them. *)

From Stdlib Require Import PrimFloat ZArith QArith Qround Ascii String.
From stdpp Require Import gmap strings list.

Set Warnings "-register-all,-clear-no-such-hyp".

Local Open Scope string_scope.
Local Open Scope Z_scope.

(** ** Python values *)

Inductive json : Type :=
  | JNull
  | JBool (b : bool)
  | JInt (n : Z)
  | JFloat (f : float)
  | JStr (s : string)
  | JArr (xs : list json)
  | JObj (kvs : list (string * json)).

(** Truth value of a Python object, as tested by [if x], [x and y],
    [x or y]. *)
Definition py_truthy (v : json) : bool :=
  match v with
  | JNull => false
  | JBool b => b
  | JInt n => negb (n =? 0)
  | JFloat f => negb (PrimFloat.eqb f 0%float)
  | JStr s => negb (String.eqb s "")
  | JArr xs => match xs with [] => false | _ => true end
  | JObj kvs => match kvs with [] => false | _ => true end
  end.

(** [x or y] *)
Definition py_or (x y : json) : json := if py_truthy x then x else y.

(** [type(v).__name__] *)
Definition py_type_name (v : json) : string :=
  match v with
  | JNull => "NoneType"
  | JBool _ => "bool"
  | JInt _ => "int"
  | JFloat _ => "float"
  | JStr _ => "str"
  | JArr _ => "list"
  | JObj _ => "dict"
  end.

(** [d.get(k)] on the entries of a dict: the value, or [None]. *)
Fixpoint dict_get (k : string) (kvs : list (string * json)) : json :=
  match kvs with
  | [] => JNull
  | (k', v) :: rest => if String.eqb k' k then v else dict_get k rest
  end.

(** [d[k] = v] on the entries of a dict. *)
Fixpoint dict_set (k : string) (v : json) (kvs : list (string * json))
  : list (string * json) :=
  match kvs with
  | [] => [(k, v)]
  | (k', v') :: rest =>
      if String.eqb k' k then (k', v) :: rest else (k', v') :: dict_set k v rest
  end.

(** ** Exceptions *)

Inductive exn : Type :=
  | JSONDecodeError (msg : string)
  | AttributeError (msg : string)
  | TypeError (msg : string)
  | KeyError (key : string)
  | IndexError (msg : string)
  | ValueError (msg : string)
  | UpstreamError (msg : string).
    (* whatever the HTTP client raises: transport errors, a non-success
       status, a malformed envelope *)

(** [str(e)]. For [KeyError] it is the [repr] of the key, written here for
    keys without quotes or escapes (request ids are hexadecimal). *)
Definition str_of_exn (e : exn) : string :=
  match e with
  | JSONDecodeError m | AttributeError m | TypeError m
  | IndexError m | ValueError m | UpstreamError m => m
  | KeyError k => "'" ++ k ++ "'"
  end.

Inductive outcome (A : Type) : Type :=
  | Return (a : A)
  | Raise (e : exn).
Arguments Return {A} a.
Arguments Raise {A} e.

(** ** Strings *)

Definition chr (n : nat) : ascii := ascii_of_nat n.

(** [str.isspace] on one character (code points below 256). *)
Definition is_space (c : ascii) : bool :=
  let n := nat_of_ascii c in
  ((9 <=? n)%nat && (n <=? 13)%nat) || ((28 <=? n)%nat && (n <=? 32)%nat)
  || (n =? 133)%nat || (n =? 160)%nat.

Fixpoint lstrip (s : string) : string :=
  match s with
  | EmptyString => EmptyString
  | String c r => if is_space c then lstrip r else s
  end.

Fixpoint string_rev_onto (s acc : string) : string :=
  match s with
  | EmptyString => acc
  | String c r => string_rev_onto r (String c acc)
  end.

Definition string_rev (s : string) : string := string_rev_onto s EmptyString.

Definition rstrip (s : string) : string := string_rev (lstrip (string_rev s)).

(** [s.strip()] *)
Definition strip (s : string) : string := rstrip (lstrip s).

(** [sep.join(parts)] *)
Fixpoint join (sep : string) (parts : list string) : string :=
  match parts with
  | [] => ""
  | [p] => p
  | p :: rest => p ++ sep ++ join sep rest
  end.

(** ** [app/utils.py]: recovery of a JSON value from model output *)

(** The longest prefix of [s] that ends with the character [d]: what
    [.*] followed by the literal [d] consumes under [re.DOTALL]. *)
Fixpoint upto_last (d : ascii) (s : string) : option string :=
  match s with
  | EmptyString => None
  | String c r =>
      match upto_last d r with
      | Some body => Some (String c body)
      | None => if Ascii.eqb c d then Some (String c EmptyString) else None
      end
  end.

(** [re.search(r"(\{.*\}|\[.*\])", s, flags=re.DOTALL)]: group 1 of the
    leftmost match, the first alternative tried first at each position. *)
Fixpoint re_search_block (s : string) : option string :=
  match s with
  | EmptyString => None
  | String c r =>
      if Ascii.eqb c "{" then
        match upto_last "}" r with
        | Some body => Some (String c body)
        | None => re_search_block r
        end
      else if Ascii.eqb c "[" then
        match upto_last "]" r with
        | Some body => Some (String c body)
        | None => re_search_block r
        end
      else re_search_block r
  end.

(** [try: body except Exception: handler] for code that touches no state. *)
Definition try_pure {A} (body : outcome A) (handler : exn -> outcome A)
  : outcome A :=
  match body with
  | Return a => Return a
  | Raise e => handler e
  end.

Section Utils.
(** The standard library's [json.loads]. *)
Variable json_loads : string -> outcome json.

Definition extract_json_from_text (s : string) : outcome json :=
  (* try direct load *)
  try_pure (json_loads s) (fun _ =>
    (* fallback: extract {...} or [ ... ] block *)
    match re_search_block s with
    | Some m => try_pure (json_loads m) (fun _ => Return JNull)
    | None => Return JNull
    end).
End Utils.

(** ** State: store, queue, cache *)

Inductive status_kind : Type := Queued | Processing | Done | Error.

(** An entry of [app.state.store]. [error = None] stands for a dict without
    the key [error]; [result = JNull] and [finished_at = None] for the
    Python value [None]. *)
Record lifecycle : Type := {
  status : status_kind;
  queued_at : float;
  finished_at : option float;
  result : json;
  error : option string;
}.

Definition set_status (v : status_kind) (r : lifecycle) : lifecycle :=
  {| status := v; queued_at := queued_at r; finished_at := finished_at r;
     result := result r; error := error r |}.
Definition set_result (v : json) (r : lifecycle) : lifecycle :=
  {| status := status r; queued_at := queued_at r; finished_at := finished_at r;
     result := v; error := error r |}.
Definition set_finished_at (v : float) (r : lifecycle) : lifecycle :=
  {| status := status r; queued_at := queued_at r; finished_at := Some v;
     result := result r; error := error r |}.
Definition set_error (v : string) (r : lifecycle) : lifecycle :=
  {| status := status r; queued_at := queued_at r; finished_at := finished_at r;
     result := result r; error := Some v |}.

Definition terminal (r : lifecycle) : Prop :=
  status r = Done \/ status r = Error.

(** The payload placed on the queue by the admission handler. *)
Record item : Type := {
  i_id : string;
  i_text : string;
  i_submitted_at : float;
  i_cache_key : string;
}.

(** [asyncio.Queue(maxsize=...)]: the waiting items, oldest first, and the
    count of items put and not yet acknowledged by [task_done]. *)
Record pyqueue : Type := {
  q_items : list item;
  q_unfinished : nat;
  q_maxsize : Z;
}.

(** One outbound chat-completion request: the messages as (role, content)
    pairs and the response cap. Model and temperature are the same
    constants in every request. *)
Record llm_request : Type := {
  messages : list (string * string);
  max_tokens : Z;
}.

Record world : Type := {
  store : gmap string lifecycle;
  queue : pyqueue;
  cache : gmap string json;      (* live entries of the TTL cache, decoded *)
  readings : nat;                (* clock readings taken so far *)
  outbound : list llm_request;   (* requests sent to the LLM, oldest first *)
  drawn : nat;                   (* request ids drawn so far *)
}.

Definition with_store (f : gmap string lifecycle -> gmap string lifecycle)
  (w : world) : world :=
  {| store := f (store w); queue := queue w; cache := cache w;
     readings := readings w; outbound := outbound w; drawn := drawn w |}.
Definition with_queue (f : pyqueue -> pyqueue) (w : world) : world :=
  {| store := store w; queue := f (queue w); cache := cache w;
     readings := readings w; outbound := outbound w; drawn := drawn w |}.

(** The outside world. *)
Record env : Type := {
  json_loads : string -> outcome json;
  time_time : nat -> float;                 (* the n-th reading of the clock *)
  chat_completion : nat -> llm_request -> outcome string;
                                            (* content of the n-th reply *)
  uuid4_hex : nat -> string;                (* the n-th id drawn *)
  md5_hexdigest : string -> string;
}.

Record config : Type := {
  MAX_QUEUE_SIZE : Z;
  BACKPRESSURE_THRESHOLD : Q;
  BATCH_SIZE : Z;
}.

(** ** Statements: state and exceptions *)

Definition M (A : Type) : Type := world -> outcome A * world.

Definition ret {A} (a : A) : M A := fun w => (Return a, w).
Definition raise {A} (e : exn) : M A := fun w => (Raise e, w).
Definition bind {A B} (m : M A) (k : A -> M B) : M B :=
  fun w => match m w with
           | (Return a, w') => k a w'
           | (Raise e, w') => (Raise e, w')
           end.
Definition lift {A} (o : outcome A) : M A := fun w => (o, w).

Declare Scope py_scope.
Delimit Scope py_scope with py.
Notation "x <- m ;; k" := (bind m (fun x => k))
  (at level 100, m at next level, right associativity) : py_scope.
Notation "m ;;; k" := (bind m (fun _ => k))
  (at level 100, right associativity) : py_scope.
Local Open Scope py_scope.

(** [try: body except Exception as e: handler e] *)
Definition try_except {A} (body : M A) (handler : exn -> M A) : M A :=
  fun w => match body w with
           | (Return a, w') => (Return a, w')
           | (Raise e, w') => handler e w'
           end.

(** [try: body finally: fin] *)
Definition try_finally {A} (body : M A) (fin : M unit) : M A :=
  fun w => match body w with
           | (o, w') => match fin w' with
                        | (Return _, w'') => (o, w'')
                        | (Raise e, w'') => (Raise e, w'')
                        end
           end.

(** [for x in xs: body x] *)
Fixpoint for_each {A} (xs : list A) (body : A -> M unit) : M unit :=
  match xs with
  | [] => ret tt
  | x :: rest => body x ;;; for_each rest body
  end.

Definition nl : string := String (chr 10) EmptyString.

(** The body of [POST /analyze] ([app/schemas.py]); [url] holds the text of
    the validated URL. *)
Record AnalyzeRequest : Type := {
  title : option string;
  abstract : option string;
  text : option string;
  url : option string;
}.

(** [if field:] on an optional string *)
Definition str_truthy (o : option string) : bool :=
  match o with
  | Some s => negb (String.eqb s "")
  | None => false
  end.

(** What a run of the handler ends in: a JSON body, an
    [HTTPException(status_code, detail)], or the handler left waiting in
    [await q.put(payload)] on a full queue. *)
Inductive reply : Type :=
  | Respond (body : json)
  | HTTPException (status_code : Z) (detail : string)
  | AwaitingPut (payload : item).

Section Program.
Variable E : env.
Variable cfg : config.

(** *** Primitive statements *)

(** [time.time()] *)
Definition read_clock (w : world) : float * world :=
  (time_time E (readings w),
   {| store := store w; queue := queue w; cache := cache w;
      readings := S (readings w); outbound := outbound w; drawn := drawn w |}).

Definition now : M float := fun w =>
  let '(t, w') := read_clock w in (Return t, w').

(** [store[rid][field] = value]: [store[rid]] raises [KeyError] when the
    id is absent, otherwise the entry is updated in place. *)
Definition store_setitem (rid : string) (f : lifecycle -> lifecycle) : M unit :=
  fun w => match store w !! rid with
           | Some r => (Return tt, with_store (insert rid (f r)) w)
           | None => (Raise (KeyError rid), w)
           end.

(** [rid in store] for a decoded value [rid]: lists and dicts are not
    hashable; of the hashable values only a [str] can equal a key. *)
Definition store_contains (rid : json) : M bool :=
  fun w => match rid with
           | JStr k => (Return (bool_decide (is_Some (store w !! k))), w)
           | JArr _ => (Raise (TypeError "unhashable type: 'list'"), w)
           | JObj _ => (Raise (TypeError "unhashable type: 'dict'"), w)
           | _ => (Return false, w)
           end.

(** [obj.get("id")] on a decoded value: only a dict has [get]. *)
Definition py_get (obj : json) (k : string) : M json :=
  match obj with
  | JObj kvs => ret (dict_get k kvs)
  | _ => raise (AttributeError
                  ("'" ++ py_type_name obj ++ "' object has no attribute 'get'"))
  end.

(** [queue.task_done()] *)
Definition task_done : M unit :=
  fun w => match q_unfinished (queue w) with
           | O => (Raise (ValueError "task_done() called too many times"), w)
           | S n => (Return tt,
                     with_queue (fun q => {| q_items := q_items q;
                                             q_unfinished := n;
                                             q_maxsize := q_maxsize q |}) w)
           end.

(** *** [app/groq_client.py] *)

(** The POST to the chat-completion endpoint with everything that can
    fail after it (status check, decoding the envelope, the path to
    [content]). The request is recorded as sent. *)
Definition post_chat (req : llm_request) : M string := fun w =>
  (chat_completion E (length (outbound w)) req,
   {| store := store w; queue := queue w; cache := cache w;
      readings := readings w; outbound := outbound w ++ [req];
      drawn := drawn w |}).

Definition single_system_msg : string :=
  "You are a Research-Paper Analyzer. Output valid JSON.".

Definition call_groq_single (prompt : string) : M string :=
  post_chat {| messages := [("system", single_system_msg); ("user", prompt)];
               max_tokens := 1200 |}.

Definition batch_system_msg : string :=
  "You are a concise Research Paper Analyzer. You will be given multiple inputs."
  ++ nl ++
  "Produce a single JSON array where each element is an object with keys: id, summary, key_points (array), recommendation."
  ++
  "Return only the JSON array — nothing else. The order must match the inputs.".

(** [for i, text in enumerate(prompts): messages.append(... ids[i] ...)] *)
Fixpoint batch_user_messages (prompts ids : list string)
  : outcome (list (string * string)) :=
  match prompts with
  | [] => Return []
  | text :: prompts' =>
      match ids with
      | [] => Raise (IndexError "list index out of range")
      | i :: ids' =>
          match batch_user_messages prompts' ids' with
          | Return ms => Return (("user", "ID:" ++ i ++ nl ++ text) :: ms)
          | Raise e => Raise e
          end
      end
  end.

Definition call_groq_batch (prompts ids : list string) : M (list string) :=
  users <- lift (batch_user_messages prompts ids) ;;
  content <- post_chat {| messages := ("system", batch_system_msg) :: users;
                          max_tokens := 1600 |} ;;
  ret [content].

(** [xs[0]] *)
Definition index0 (xs : list string) : M string :=
  match xs with
  | x :: _ => ret x
  | [] => raise (IndexError "list index out of range")
  end.

(** *** [app/worker.py] *)

(** Body of [for obj in parsed] (the batch response decoded to a list of
    the batch length). *)
Definition write_batch_element (obj : json) : M unit :=
  rid <- py_get obj "id" ;;
  hit <- (if py_truthy rid then store_contains rid else ret false) ;;
  if hit then
    match rid with
    | JStr k =>
        store_setitem k (set_status Done) ;;;
        store_setitem k (set_result obj) ;;;
        t <- now ;;
        store_setitem k (set_finished_at t)
    | _ => ret tt   (* only a str is ever contained in the store *)
    end
  else ret tt.

(** Body of [for i, b in enumerate(batch)] (the per-item fallback). *)
Definition fallback_item (b : item) : M unit :=
  try_except
    (out <- call_groq_single (i_text b) ;;
     parsed_single <- lift (extract_json_from_text (json_loads E) out) ;;
     store_setitem (i_id b) (set_status Done) ;;;
     store_setitem (i_id b)
       (set_result (py_or parsed_single (JObj [("raw", JStr out)]))) ;;;
     t <- now ;;
     store_setitem (i_id b) (set_finished_at t))
    (fun e =>
       store_setitem (i_id b) (set_status Error) ;;;
       store_setitem (i_id b) (set_error (str_of_exn e))).

(** Body of [for b in batch] in the outer handler. *)
Definition mark_batch_error (e : exn) (b : item) : M unit :=
  store_setitem (i_id b) (set_status Error) ;;;
  store_setitem (i_id b) (set_error (str_of_exn e)).

Definition is_list_of_length (parsed : json) (n : nat) : bool :=
  match parsed with
  | JArr xs => Nat.eqb (length xs) n
  | _ => false
  end.

Definition list_elements (parsed : json) : list json :=
  match parsed with JArr xs => xs | _ => [] end.

(** One pass of the loop body of [worker_loop] once [batch] has been
    collected. *)
Definition process_batch (batch : list item) : M unit :=
  let ids := map i_id batch in
  let texts := map i_text batch in
  try_finally
    (try_except
       (responses <- call_groq_batch texts ids ;;
        content <- index0 responses ;;
        parsed <- lift (extract_json_from_text (json_loads E) content) ;;
        if is_list_of_length parsed (length batch) then
          for_each (list_elements parsed) write_batch_element
        else
          for_each batch fallback_item)
       (fun e => for_each batch (mark_batch_error e)))
    (for_each batch (fun _ => task_done)).

(** Collection of a batch: the blocking [queue.get()], then as many
    further items as arrive inside the [BATCH_TIMEOUT] window ([extra],
    decided by timing), up to [BATCH_SIZE]. *)
Definition collect_batch (extra : nat) (q : pyqueue)
  : option (list item * pyqueue) :=
  match q_items q with
  | [] => None                      (* [queue.get()] keeps waiting *)
  | first :: rest =>
      let k := Nat.min extra (Z.to_nat (BATCH_SIZE cfg - 1)) in
      Some (first :: take k rest,
            {| q_items := drop k rest; q_unfinished := q_unfinished q;
               q_maxsize := q_maxsize q |})
  end.

(** One iteration of [while True] in [worker_loop]. [None]: the worker
    stays blocked on the empty queue. *)
Definition worker_iteration (extra : nat) (w : world)
  : option (outcome unit * world) :=
  match collect_batch extra (queue w) with
  | None => None
  | Some (batch, q') => Some (process_batch batch (with_queue (fun _ => q') w))
  end.

(** *** [app/main.py]: the admission handler *)

(** [make_request_id()] *)
Definition make_request_id (w : world) : string * world :=
  (uuid4_hex E (drawn w),
   {| store := store w; queue := queue w; cache := cache w;
      readings := readings w; outbound := outbound w; drawn := S (drawn w) |}).

Definition _hash_text (text : string) : string := md5_hexdigest E text.

(** [int(x)] on the product [MAX_QUEUE_SIZE * BACKPRESSURE_THRESHOLD]:
    truncation toward zero. The float product is taken as the exact
    rational product. *)
Definition py_int (x : Q) : Z := Z.quot (Qnum x) (Zpos (Qden x)).

Definition backpressure_limit : Z :=
  py_int (inject_Z (MAX_QUEUE_SIZE cfg) * BACKPRESSURE_THRESHOLD cfg)%Q.

(** [q.qsize()] *)
Definition qsize (q : pyqueue) : Z := Z.of_nat (length (q_items q)).

(** [q.full()] *)
Definition full (q : pyqueue) : bool :=
  if q_maxsize q <=? 0 then false else q_maxsize q <=? qsize q.

Definition put_nowait (payload : item) (q : pyqueue) : pyqueue :=
  {| q_items := q_items q ++ [payload]; q_unfinished := S (q_unfinished q);
     q_maxsize := q_maxsize q |}.

(** [cached is not None] *)
Definition is_not_none (v : json) : bool :=
  match v with JNull => false | _ => true end.

(** [await cache.get(cache_key)]: the decoded entry, [None] when absent. *)
Definition cache_get (key : string) (w : world) : json :=
  match cache w !! key with
  | Some v => v
  | None => JNull
  end.

Definition text_blob (req : AnalyzeRequest) : string :=
  let parts := concat [
    if str_truthy (title req) then ["Title: " ++ default "" (title req)] else [];
    if str_truthy (abstract req)
    then ["Abstract: " ++ default "" (abstract req)] else [];
    if str_truthy (text req) then [default "" (text req)] else [];
    if str_truthy (url req) then ["URL: " ++ default "" (url req)] else [] ] in
  strip (join (nl ++ nl) parts).

Definition analyze (req : AnalyzeRequest) (w : world) : reply * world :=
  let text_blob := text_blob req in
  if String.eqb text_blob "" then
    (HTTPException 400 "No text provided in request", w)
  else
    let cache_key := "analyze:" ++ _hash_text text_blob in
    let cached := cache_get cache_key w in
    if is_not_none cached then
      let '(rid, w1) := make_request_id w in
      let '(t, w2) := read_clock w1 in
      (Respond (JObj [("request_id", JStr rid); ("status", JStr "done");
                      ("cached", JBool true)]),
       with_store (insert rid {| status := Done; queued_at := t;
                                 finished_at := Some t; result := cached;
                                 error := None |}) w2)
    else
      let q := queue w in
      if backpressure_limit <=? qsize q then
        (HTTPException 429 "Server overloaded — try again later", w)
      else
        let '(rid, w1) := make_request_id w in
        let '(t, w2) := read_clock w1 in
        let w3 := with_store (insert rid {| status := Queued; queued_at := t;
                                            finished_at := None; result := JNull;
                                            error := None |}) w2 in
        let payload := {| i_id := rid; i_text := text_blob;
                          i_submitted_at := t; i_cache_key := cache_key |} in
        if full (queue w3) then
          (AwaitingPut payload, w3)
        else
          (Respond (JObj [("request_id", JStr rid); ("status", JStr "queued")]),
           with_queue (put_nowait payload) w3).
End Program.

(** ** The span the specification asks for

    The specification's wording of the recovery step: after a failed direct
    decode, locate the first balanced [{...}] or [[...]] span and decode
    that. The scanner below counts nesting of the delimiter kind that opened
    the span and stops where the count returns to zero. *)

Fixpoint balanced_rest (op cl : ascii) (depth : nat) (s : string)
  : option string :=
  match s with
  | EmptyString => None
  | String c r =>
      if Ascii.eqb c cl then
        match depth with
        | O => Some (String c EmptyString)
        | S d => option_map (String c) (balanced_rest op cl d r)
        end
      else if Ascii.eqb c op then
        option_map (String c) (balanced_rest op cl (S depth) r)
      else option_map (String c) (balanced_rest op cl depth r)
  end.

Fixpoint spec_first_balanced_span (s : string) : option string :=
  match s with
  | EmptyString => None
  | String c r =>
      if Ascii.eqb c "{" then
        match balanced_rest "{" "}" 0 r with
        | Some body => Some (String c body)
        | None => spec_first_balanced_span r
        end
      else if Ascii.eqb c "[" then
        match balanced_rest "[" "]" 0 r with
        | Some body => Some (String c body)
        | None => spec_first_balanced_span r
        end
      else spec_first_balanced_span r
  end.

Definition spec_extract (json_loads : string -> outcome json) (s : string)
  : outcome json :=
  try_pure (json_loads s) (fun _ =>
    match spec_first_balanced_span s with
    | Some m => try_pure (json_loads m) (fun _ => Return JNull)
    | None => Return JNull
    end).

(** ** A decoder to run examples with

    [decode] agrees with [json.loads] on the fragment of JSON made of
    objects, arrays, strings without escapes, integers and the three
    literals; any other text (floats, escapes, [NaN]) is reported as a
    decoding error. It is used only to evaluate the program on concrete
    texts inside that fragment. *)

Definition dquote : ascii := chr 34.

Definition is_json_ws (c : ascii) : bool :=
  let n := nat_of_ascii c in
  (n =? 32)%nat || (n =? 9)%nat || (n =? 10)%nat || (n =? 13)%nat.

Fixpoint skip_ws (s : string) : string :=
  match s with
  | String c r => if is_json_ws c then skip_ws r else s
  | EmptyString => EmptyString
  end.

Definition digit_of (c : ascii) : option Z :=
  let n := nat_of_ascii c in
  if (48 <=? n)%nat && (n <=? 57)%nat then Some (Z.of_nat n - 48) else None.

Fixpoint scan_digits (acc : Z) (s : string) : Z * string :=
  match s with
  | String c r =>
      match digit_of c with
      | Some d => scan_digits (10 * acc + d) r
      | None => (acc, s)
      end
  | EmptyString => (acc, s)
  end.

(** The characters of a string literal up to its closing quote. *)
Fixpoint scan_string (s : string) : option (string * string) :=
  match s with
  | EmptyString => None
  | String c r =>
      if Ascii.eqb c dquote then Some (EmptyString, r)
      else if Ascii.eqb c "\" then None
      else if (nat_of_ascii c <? 32)%nat then None
      else match scan_string r with
           | Some (body, r') => Some (String c body, r')
           | None => None
           end
  end.

Definition starts_fraction (s : string) : bool :=
  match s with
  | String c _ => Ascii.eqb c "." || Ascii.eqb c "e" || Ascii.eqb c "E"
  | EmptyString => false
  end.

(** An optional minus sign, then [0] or a non-zero digit and more digits,
    not followed by a fraction or an exponent. *)
Definition scan_int (s : string) : option (Z * string) :=
  let '(neg, s1) := match s with
                    | String c r => if Ascii.eqb c "-" then (true, r) else (false, s)
                    | EmptyString => (false, s)
                    end in
  match s1 with
  | String c r =>
      match digit_of c with
      | Some d =>
          let '(n, rest) := if d =? 0 then (0, r) else scan_digits d r in
          if starts_fraction rest then None
          else Some (if neg then - n else n, rest)
      | None => None
      end
  | EmptyString => None
  end.

Fixpoint strip_prefix (p s : string) : option string :=
  match p with
  | EmptyString => Some s
  | String a p' =>
      match s with
      | String b s' => if Ascii.eqb a b then strip_prefix p' s' else None
      | EmptyString => None
      end
  end.

Definition scan_scalar (s : string) : option (json * string) :=
  match strip_prefix "null" s with
  | Some r => Some (JNull, r)
  | None =>
  match strip_prefix "true" s with
  | Some r => Some (JBool true, r)
  | None =>
  match strip_prefix "false" s with
  | Some r => Some (JBool false, r)
  | None =>
  match scan_int s with
  | Some (n, r) => Some (JInt n, r)
  | None => None
  end end end end.

Inductive pmode : Type :=
  | PValue
  | PElems (acc : list json)
  | PMembers (acc : list (string * json)).

Definition head_is (c : ascii) (s : string) : option string :=
  match s with
  | String c' r => if Ascii.eqb c c' then Some r else None
  | EmptyString => None
  end.

Fixpoint scan (fuel : nat) (m : pmode) (s : string) : option (json * string) :=
  match fuel with
  | O => None
  | S fuel =>
      match m with
      | PValue =>
          let s := skip_ws s in
          match head_is "[" s, head_is "{" s, head_is dquote s with
          | Some r, _, _ =>
              match head_is "]" (skip_ws r) with
              | Some r' => Some (JArr [], r')
              | None => scan fuel (PElems []) r
              end
          | _, Some r, _ =>
              match head_is "}" (skip_ws r) with
              | Some r' => Some (JObj [], r')
              | None => scan fuel (PMembers []) r
              end
          | _, _, Some r =>
              match scan_string r with
              | Some (body, r') => Some (JStr body, r')
              | None => None
              end
          | None, None, None => scan_scalar s
          end
      | PElems acc =>
          match scan fuel PValue s with
          | Some (v, r) =>
              let r := skip_ws r in
              match head_is "," r, head_is "]" r with
              | Some r', _ => scan fuel (PElems (v :: acc)) r'
              | _, Some r' => Some (JArr (rev (v :: acc)), r')
              | None, None => None
              end
          | None => None
          end
      | PMembers acc =>
          match head_is dquote (skip_ws s) with
          | Some r =>
              match scan_string r with
              | Some (k, r1) =>
                  match head_is ":" (skip_ws r1) with
                  | Some r2 =>
                      match scan fuel PValue r2 with
                      | Some (v, r3) =>
                          let r3 := skip_ws r3 in
                          match head_is "," r3, head_is "}" r3 with
                          | Some r4, _ => scan fuel (PMembers (dict_set k v acc)) r4
                          | _, Some r4 => Some (JObj (dict_set k v acc), r4)
                          | None, None => None
                          end
                      | None => None
                      end
                  | None => None
                  end
              | None => None
              end
          | None => None
          end
      end
  end.

Definition decode (s : string) : outcome json :=
  match scan (2 * String.length s + 2) PValue s with
  | Some (v, r) =>
      match skip_ws r with
      | EmptyString => Return v
      | _ => Raise (JSONDecodeError "Extra data")
      end
  | None => Raise (JSONDecodeError "Expecting value")
  end.

(** Writes a text with single quotes standing for double quotes. *)
Fixpoint dq (s : string) : string :=
  match s with
  | EmptyString => EmptyString
  | String c r => String (if Ascii.eqb c "'" then dquote else c) (dq r)
  end.

(** ** Predicates and examples used in the statements *)

(** [m] keeps the relation [R] between the state it starts in and the
    state it ends in, whether it returns or raises. *)
Definition keeps (R : world -> world -> Prop) {A : Type} (m : M A) : Prop :=
  forall w, R w (snd (m w)).

Inductive worker_write : (lifecycle -> lifecycle) -> Prop :=
  | ww_status_done : worker_write (set_status Done)
  | ww_status_error : worker_write (set_status Error)
  | ww_result v : worker_write (set_result v)
  | ww_finished_at t : worker_write (set_finished_at t)
  | ww_error m : worker_write (set_error m).

Definition same_keys (w w' : world) : Prop := dom (store w') = dom (store w).
Definition same_cache (w w' : world) : Prop := cache w' = cache w.
Definition terminal_kept (w w' : world) : Prop :=
  forall k r, store w !! k = Some r -> terminal r ->
    exists r', store w' !! k = Some r' /\ terminal r'.

(** Any sequence of writes of workers: single passes of the three loop
    bodies of [worker_loop], whole batch runs and whole iterations, in any
    order and number. *)
Inductive worker_steps (E : env) (cfg : config) : world -> world -> Prop :=
  | ws_refl w : worker_steps E cfg w w
  | ws_element obj w w' :
      worker_steps E cfg (snd (write_batch_element E obj w)) w' ->
      worker_steps E cfg w w'
  | ws_fallback b w w' :
      worker_steps E cfg (snd (fallback_item E b w)) w' ->
      worker_steps E cfg w w'
  | ws_mark e b w w' :
      worker_steps E cfg (snd (mark_batch_error e b w)) w' ->
      worker_steps E cfg w w'
  | ws_batch batch w w' :
      worker_steps E cfg (snd (process_batch E batch w)) w' ->
      worker_steps E cfg w w'
  | ws_iteration extra o w w1 w' :
      worker_iteration E cfg extra w = Some (o, w1) ->
      worker_steps E cfg w1 w' ->
      worker_steps E cfg w w'.

(** The element is a dict whose [id] is the non-empty string [k]. *)
Definition names (k : string) (obj : json) : Prop :=
  exists kvs, obj = JObj kvs /\ dict_get "id" kvs = JStr k /\ k <> "".

(** The three writes of the loop body on an entry. *)
Definition written (obj : json) (t : float) (r : lifecycle) : lifecycle :=
  set_finished_at t (set_result obj (set_status Done r)).

(** An [id] that the loop body passes over: absent or falsy, or a string
    or number or boolean. *)
Definition passable (rid : json) : Prop :=
  match rid with
  | JArr (_ :: _) | JObj (_ :: _) => False
  | _ => True
  end.

Definition sent (req : llm_request) (w : world) : world :=
  {| store := store w; queue := queue w; cache := cache w;
     readings := readings w; outbound := outbound w ++ [req];
     drawn := drawn w |}.

Definition user_message (b : item) : string * string :=
  ("user", "ID:" ++ i_id b ++ nl ++ i_text b).

Definition batch_request (batch : list item) : llm_request :=
  {| messages := ("system", batch_system_msg) :: map user_message batch;
     max_tokens := 1600 |}.

Definition single_request (b : item) : llm_request :=
  {| messages := [("system", single_system_msg); ("user", i_text b)];
     max_tokens := 1200 |}.

Definition batch_handlers (batch : list item) (body : M unit) : M unit :=
  try_finally
    (try_except body (fun e => for_each batch (mark_batch_error e)))
    (for_each batch (fun _ => task_done)).




Definition raw_result (out : string) : json := JObj [("raw", JStr out)].

Definition fallback_done (v : json) (out : string) (t : float) (r : lifecycle)
  : lifecycle :=
  set_finished_at t (set_result (py_or v (raw_result out)) (set_status Done r)).

Definition fallback_failed (e : exn) (r : lifecycle) : lifecycle :=
  set_error (str_of_exn e) (set_status Error r).

Fixpoint occurs (d : ascii) (s : string) : bool :=
  match s with
  | EmptyString => false
  | String c r => Ascii.eqb c d || occurs d r
  end.

(** Every [op] in [pre] has no [cl] anywhere after it in [pre ++ rest]:
    no match of [op .* cl] starts inside [pre]. *)
Fixpoint no_match_starts (pre rest : string) : Prop :=
  match pre with
  | EmptyString => True
  | String c p =>
      (c = "{"%char -> occurs "}" (p ++ rest) = false) /\
      (c = "["%char -> occurs "]" (p ++ rest) = false) /\
      no_match_starts p rest
  end.

Definition bracket (op cl : ascii) : Prop :=
  (op = "{"%char /\ cl = "}"%char) \/ (op = "["%char /\ cl = "]"%char).

Definition two_objects : string := dq "x {'a':1} y {'b':2}".

(** ** Concrete runs *)

(** An environment to evaluate the program in: the example decoder, a clock
    that advances by one per reading, the ids [r0], [r1], ... , the given
    digest and the given replies of the chat-completion endpoint, in the
    order of the calls. *)
Definition scenario_env (digest : string -> string)
  (replies : list (outcome string)) : env :=
  {| json_loads := decode;
     time_time := fun n => nth n [100; 101; 102; 103; 104; 105]%float 106%float;
     chat_completion :=
       fun n _ => nth n replies (Raise (UpstreamError "connection refused"));
     uuid4_hex := fun n => nth n ["r0"; "r1"; "r2"; "r3"] "r4";
     md5_hexdigest := digest |}.

(** A stand-in for the digest where a run needs one. *)
Definition digest_stub (s : string) : string := s.

Definition small_cfg : config :=
  {| MAX_QUEUE_SIZE := 2; BACKPRESSURE_THRESHOLD := (1 # 2)%Q; BATCH_SIZE := 8 |}.

Definition default_cfg : config :=
  {| MAX_QUEUE_SIZE := 20000; BACKPRESSURE_THRESHOLD := (9 # 10)%Q;
     BATCH_SIZE := 8 |}.

(** The state after startup. *)
Definition startup (cfg : config) : world :=
  {| store := ∅;
     queue := {| q_items := []; q_unfinished := 0;
                 q_maxsize := MAX_QUEUE_SIZE cfg |};
     cache := ∅; readings := 0; outbound := []; drawn := 0 |}.

Definition req_TA : AnalyzeRequest :=
  {| title := Some "T"; abstract := Some "A"; text := None; url := None |}.
Definition req_hello : AnalyzeRequest :=
  {| title := None; abstract := None; text := Some "hello"; url := None |}.

Definition over_threshold (cfg : config) (w : world) : Prop :=
  (Qfloor (inject_Z (MAX_QUEUE_SIZE cfg) * BACKPRESSURE_THRESHOLD cfg)
   <= qsize (queue w))%Z.

Definition cache_key (E : env) (req : AnalyzeRequest) : string :=
  "analyze:" ++ _hash_text E (text_blob req).

Definition E0 : env := scenario_env digest_stub [].

(** One request waiting: with [small_cfg] the queue is at the threshold. *)
Definition one_waiting : world :=
  snd (analyze E0 small_cfg req_hello (startup small_cfg)).

Definition cached_TA : json :=
  JObj [("id", JStr "r7"); ("summary", JStr "s")].

(** [one_waiting] with a cache entry for the text of [req_TA]. *)
Definition busy_warm_world : world :=
  {| store := store one_waiting; queue := queue one_waiting;
     cache := {[ "analyze:" ++ digest_stub (text_blob req_TA) := cached_TA ]};
     readings := readings one_waiting; outbound := outbound one_waiting;
     drawn := drawn one_waiting |}.

Definition warm_world : world :=
  {| store := ∅;
     queue := {| q_items := []; q_unfinished := 0; q_maxsize := 20000 |};
     cache := {[ cache_key E0 req_TA := cached_TA ]};
     readings := 0; outbound := []; drawn := 0 |}.

Definition elem_x : json := JObj [("id", JStr "r0"); ("summary", JStr "x")].
Definition elem_y : json := JObj [("id", JStr "r0"); ("summary", JStr "y")].

(** Two requests admitted, both waiting. *)
Definition two_waiting (E : env) : world :=
  snd (analyze E default_cfg req_hello
         (snd (analyze E default_cfg req_TA (startup default_cfg)))).

Definition ids_reply_twice_r0 : string :=
  dq "[{'id':'r0','summary':'x'},{'id':'r0','summary':'y'}]".

Definition reply_r0 : string :=
  dq "[{'id':'r0','summary':'s','key_points':['k'],'recommendation':'r'}]".

Definition elem_r0 : json :=
  JObj [("id", JStr "r0"); ("summary", JStr "s");
        ("key_points", JArr [JStr "k"]); ("recommendation", JStr "r")].

(** ** [app/main.py]: polling and readiness *)

(** The value of the [status] key. *)
Definition status_str (s : status_kind) : string :=
  match s with
  | Queued => "queued"
  | Processing => "processing"
  | Done => "done"
  | Error => "error"
  end.

(** The store entry as the dict it is, keys in insertion order: the four
    keys written at admission, then [error] once a worker has set it. *)
Definition record_dict (r : lifecycle) : json :=
  JObj ([("status", JStr (status_str (status r)));
         ("queued_at", JFloat (queued_at r));
         ("finished_at", match finished_at r with
                         | Some t => JFloat t
                         | None => JNull
                         end);
         ("result", result r)]
        ++ match error r with
           | Some m => [("error", JStr m)]
           | None => []
           end)%list.

(** [GET /result/{request_id}] *)
Definition get_result (request_id : string) (w : world) : reply :=
  match store w !! request_id with
  | Some rec => Respond (record_dict rec)
  | None => HTTPException 404 "Unknown request_id"
  end.

(** [sum(alive)] *)
Fixpoint count_true (alive : list bool) : nat :=
  match alive with
  | [] => 0
  | b :: rest => ((if b then 1 else 0) + count_true rest)%nat
  end.

(** [GET /ready], on [alive = [not t.done() for t in tasks]]. *)
Definition ready (alive : list bool) : json :=
  match alive with
  | [] => JObj [("ready", JBool false); ("reason", JStr "no-workers")]
  | _ =>
      if forallb (fun b => b) alive then
        JObj [("ready", JBool true);
              ("workers_alive", JInt (Z.of_nat (length alive)))]
      else
        JObj [("ready", JBool false);
              ("workers_alive", JInt (Z.of_nat (count_true alive)));
              ("total_workers", JInt (Z.of_nat (length alive)))]
  end.

(** ** Predicates on strings and states used in the further statements *)

Fixpoint all_space (s : string) : bool :=
  match s with
  | EmptyString => true
  | String c r => is_space c && all_space r
  end.

(** Every waiting item has its record, and every waiting item is still
    unacknowledged. *)
Definition well_formed (w : world) : Prop :=
  (forall it, it ∈ q_items (queue w) -> is_Some (store w !! i_id it))
  /\ q_unfinished (queue w) = length (q_items (queue w)).

(** The states the program reaches from startup by handler runs and
    worker iterations. *)
Inductive reachable (E : env) (cfg : config) : world -> Prop :=
  | reach_startup : reachable E cfg (startup cfg)
  | reach_analyze req w :
      reachable E cfg w -> reachable E cfg (snd (analyze E cfg req w))
  | reach_worker extra o w w' :
      reachable E cfg w ->
      worker_iteration E cfg extra w = Some (o, w') ->
      reachable E cfg w'.

(** The id generator has not repeated itself among its first [n] ids. *)
Definition no_repeats (E : env) (n : nat) : Prop :=
  forall i j, (i < j)%nat -> (j < n)%nat -> uuid4_hex E i <> uuid4_hex E j.

(** What a worker leaves alone while it resolves a batch: the queue, the
    set of request ids, the cache and the id generator. *)
Definition framed (w w' : world) : Prop :=
  queue w' = queue w /\ dom (store w') = dom (store w) /\
  cache w' = cache w /\ drawn w' = drawn w.

(** Every request id in the store and on the queue was drawn from the
    generator, and the waiting items were drawn at distinct positions. *)
Definition ids_drawn (E : env) (w : world) : Prop :=
  (forall k, is_Some (store w !! k) ->
     exists n, (n < drawn w)%nat /\ k = uuid4_hex E n)
  /\ exists ns,
       map i_id (q_items (queue w)) = map (uuid4_hex E) ns /\
       NoDup ns /\ forall n, n ∈ ns -> (n < drawn w)%nat.

(** * Properties *)

(** ** Relations that every statement of the worker keeps *)

Section Keeps.
Variable R : world -> world -> Prop.
Hypothesis R_refl : forall w, R w w.
Hypothesis R_trans : forall a b c, R a b -> R b c -> R a c.

Lemma keeps_ret {A} (a : A) : keeps R (ret a).
Proof. intros w. apply R_refl. Qed.

Lemma keeps_raise {A} (e : exn) : keeps R (@raise A e).
Proof. intros w. apply R_refl. Qed.

Lemma keeps_lift {A} (o : outcome A) : keeps R (lift o).
Proof. intros w. apply R_refl. Qed.

Lemma keeps_bind {A B} (m : M A) (k : A -> M B) :
  keeps R m -> (forall a, keeps R (k a)) -> keeps R (bind m k).
Proof.
  intros Hm Hk w. unfold bind. specialize (Hm w).
  destruct (m w) as [[a|e] w']; simpl in *; [|done].
  eapply R_trans; [exact Hm | apply Hk].
Qed.

Lemma keeps_try_except {A} (body : M A) (handler : exn -> M A) :
  keeps R body -> (forall e, keeps R (handler e)) -> keeps R (try_except body handler).
Proof.
  intros Hb Hh w. unfold try_except. specialize (Hb w).
  destruct (body w) as [[a|e] w']; simpl in *; [done|].
  eapply R_trans; [exact Hb | apply Hh].
Qed.

Lemma keeps_try_finally {A} (body : M A) (fin : M unit) :
  keeps R body -> keeps R fin -> keeps R (try_finally body fin).
Proof.
  intros Hb Hf w. unfold try_finally. specialize (Hb w).
  destruct (body w) as [o w']. specialize (Hf w').
  destruct (fin w') as [[[]|e] w'']; simpl in *; eapply R_trans; eauto.
Qed.

Lemma keeps_for_each {A} (xs : list A) (body : A -> M unit) :
  (forall x, keeps R (body x)) -> keeps R (for_each xs body).
Proof.
  intros Hb. induction xs as [|x xs IH]; simpl.
  - apply keeps_ret.
  - apply keeps_bind; [apply Hb | intros _; exact IH].
Qed.

(** What is asked of the primitive statements. *)
Variable E : env.
Hypothesis R_now : keeps R (now E).
Hypothesis R_post : forall req, keeps R (post_chat E req).
Hypothesis R_task_done : keeps R task_done.
Hypothesis R_setitem :
  forall k f, worker_write f -> keeps R (store_setitem k f).
Hypothesis R_queue : forall f w, R w (with_queue f w).

Lemma keeps_store_contains rid : keeps R (store_contains rid).
Proof. intros w. destruct rid; simpl; apply R_refl. Qed.

Lemma keeps_py_get obj k : keeps R (py_get obj k).
Proof. destruct obj; simpl; first [apply keeps_ret | apply keeps_raise]. Qed.

Lemma keeps_write_batch_element obj : keeps R (write_batch_element E obj).
Proof.
  unfold write_batch_element.
  apply keeps_bind; [apply keeps_py_get|]. intros rid.
  apply keeps_bind.
  { destruct (py_truthy rid); [apply keeps_store_contains | apply keeps_ret]. }
  intros [|]; [|apply keeps_ret].
  destruct rid; try apply keeps_ret.
  repeat (apply keeps_bind; [first [apply R_setitem; constructor | apply R_now]|]; intros ?).
  apply R_setitem; constructor.
Qed.

Lemma keeps_call_groq_single prompt : keeps R (call_groq_single E prompt).
Proof. apply R_post. Qed.

Lemma keeps_call_groq_batch prompts ids : keeps R (call_groq_batch E prompts ids).
Proof.
  unfold call_groq_batch.
  apply keeps_bind; [apply keeps_lift|]. intros users.
  apply keeps_bind; [apply R_post|]. intros c. apply keeps_ret.
Qed.

Lemma keeps_mark_batch_error e b : keeps R (mark_batch_error e b).
Proof.
  unfold mark_batch_error.
  apply keeps_bind; [apply R_setitem; constructor|]. intros _.
  apply R_setitem; constructor.
Qed.

Lemma keeps_fallback_item b : keeps R (fallback_item E b).
Proof.
  unfold fallback_item. apply keeps_try_except.
  - apply keeps_bind; [apply keeps_call_groq_single|]. intros out.
    apply keeps_bind; [apply keeps_lift|]. intros p.
    repeat (apply keeps_bind; [first [apply R_setitem; constructor | apply R_now]|]; intros ?).
    apply R_setitem; constructor.
  - intros e. apply keeps_mark_batch_error.
Qed.

Lemma keeps_process_batch batch : keeps R (process_batch E batch).
Proof.
  unfold process_batch. apply keeps_try_finally.
  - apply keeps_try_except.
    + apply keeps_bind; [apply keeps_call_groq_batch|]. intros rs.
      apply keeps_bind.
      { destruct rs; [apply keeps_raise | apply keeps_ret]. }
      intros content.
      apply keeps_bind; [apply keeps_lift|]. intros parsed.
      destruct (is_list_of_length parsed (length batch));
        apply keeps_for_each; intros x;
        [apply keeps_write_batch_element | apply keeps_fallback_item].
    + intros e. apply keeps_for_each. intros b. apply keeps_mark_batch_error.
  - apply keeps_for_each. intros _. apply R_task_done.
Qed.
Lemma keeps_worker_steps cfg w w' : worker_steps E cfg w w' -> R w w'.
Proof.
  induction 1 as [w | obj w w' _ IH | b w w' _ IH | e b w w' _ IH
                 | batch w w' _ IH | extra o w w1 w' Hit _ IH].
  - apply R_refl.
  - eapply R_trans; [apply keeps_write_batch_element | exact IH].
  - eapply R_trans; [apply keeps_fallback_item | exact IH].
  - eapply R_trans; [apply keeps_mark_batch_error | exact IH].
  - eapply R_trans; [apply keeps_process_batch | exact IH].
  - unfold worker_iteration in Hit.
    destruct (collect_batch cfg extra (queue w)) as [[batch q']|]; [|done].
    injection Hit as Hrun.
    pose proof (keeps_process_batch batch (with_queue (fun _ => q') w)) as Hb.
    rewrite Hrun in Hb. simpl in Hb.
    eapply R_trans; [apply (R_queue (fun _ => q'))|].
    eapply R_trans; [exact Hb | exact IH].
Qed.
End Keeps.

(** ** Three instances: the key set, the cache, terminal records *)

Lemma worker_write_terminal f r : worker_write f -> terminal r -> terminal (f r).
Proof. intros Hf Ht. destruct Hf; destruct Ht; unfold terminal; simpl; auto. Qed.

Lemma same_keys_trans a b c : same_keys a b -> same_keys b c -> same_keys a c.
Proof. unfold same_keys. congruence. Qed.

Lemma same_cache_trans a b c : same_cache a b -> same_cache b c -> same_cache a c.
Proof. unfold same_cache. congruence. Qed.

Lemma terminal_kept_refl w : terminal_kept w w.
Proof. intros k r Hk Ht. eauto. Qed.

Lemma terminal_kept_trans a b c :
  terminal_kept a b -> terminal_kept b c -> terminal_kept a c.
Proof.
  intros H1 H2 k r Hk Ht. destruct (H1 k r Hk Ht) as (r1 & Hk1 & Ht1). eauto.
Qed.

Lemma task_done_store w : store (snd (task_done w)) = store w.
Proof. unfold task_done. destruct (q_unfinished (queue w)); done. Qed.

Lemma task_done_cache w : cache (snd (task_done w)) = cache w.
Proof. unfold task_done. destruct (q_unfinished (queue w)); done. Qed.

Lemma setitem_same_keys k f : keeps same_keys (store_setitem k f).
Proof.
  intros w. unfold store_setitem, same_keys.
  destruct (store w !! k) as [r|] eqn:Hk; simpl; [|done].
  rewrite dom_insert_L. apply elem_of_dom_2 in Hk.
  apply set_eq. intros x. rewrite elem_of_union, elem_of_singleton.
  split; [intros [->|?]; done | by right].
Qed.

Lemma setitem_terminal_kept k f :
  worker_write f -> keeps terminal_kept (store_setitem k f).
Proof.
  intros Hf w k' r' Hk' Ht. unfold store_setitem.
  destruct (store w !! k) as [r|] eqn:Hk; simpl; [|eauto].
  destruct (decide (k = k')) as [->|Hne].
  - rewrite lookup_insert_eq. eexists; split; [done|].
    rewrite Hk in Hk'. injection Hk' as ->. by apply worker_write_terminal.
  - rewrite lookup_insert_ne by done. eauto.
Qed.

Lemma worker_steps_same_keys E cfg w w' :
  worker_steps E cfg w w' -> same_keys w w'.
Proof.
  apply keeps_worker_steps; try done.
  - apply same_keys_trans.
  - intros w0. unfold same_keys. by rewrite task_done_store.
  - intros k f _. apply setitem_same_keys.
Qed.

Lemma worker_steps_terminal_kept E cfg w w' :
  worker_steps E cfg w w' -> terminal_kept w w'.
Proof.
  apply keeps_worker_steps.
  - apply terminal_kept_refl.
  - apply terminal_kept_trans.
  - intros w0 k r Hk Ht. simpl. eauto.
  - intros req w0 k r Hk Ht. simpl. eauto.
  - intros w0 k r Hk Ht. rewrite task_done_store. eauto.
  - intros k f Hf. by apply setitem_terminal_kept.
  - intros f w0 k r Hk Ht. simpl. eauto.
Qed.

Lemma process_batch_same_cache E batch : keeps same_cache (process_batch E batch).
Proof.
  apply keeps_process_batch; try done.
  - apply same_cache_trans.
  - intros w. apply task_done_cache.
  - intros k f _ w. unfold store_setitem. destruct (store w !! k); done.
Qed.

(** ** What one element of a batch response does *)

Lemma string_eqb_empty k : k <> "" -> String.eqb k "" = false.
Proof. intros H. by apply String.eqb_neq. Qed.

Lemma write_batch_element_hit E obj k r w :
  names k obj -> store w !! k = Some r ->
  exists w',
    write_batch_element E obj w = (Return tt, w') /\
    store w' !! k = Some (written obj (time_time E (readings w)) r) /\
    (forall k', k' <> k -> store w' !! k' = store w !! k') /\
    outbound w' = outbound w /\ readings w' = S (readings w).
Proof.
  intros (kvs & -> & Hid & Hne) Hk.
  unfold write_batch_element, bind, py_get, ret. rewrite Hid. simpl.
  rewrite (string_eqb_empty _ Hne). simpl.
  rewrite Hk. rewrite bool_decide_eq_true_2 by eauto.
  unfold store_setitem at 1. rewrite Hk. simpl.
  unfold store_setitem at 1. simpl. rewrite lookup_insert_eq.
  unfold now, read_clock, store_setitem. simpl. rewrite lookup_insert_eq. simpl.
  eexists. split; [reflexivity|]. simpl. rewrite lookup_insert_eq.
  split; [done|]. split; [|done].
  intros k' Hk'. by rewrite !lookup_insert_ne.
Qed.

Lemma write_batch_element_miss E kvs w :
  passable (dict_get "id" kvs) ->
  (forall k, dict_get "id" kvs = JStr k -> store w !! k = None) ->
  write_batch_element E (JObj kvs) w = (Return tt, w).
Proof.
  intros Hp Hmiss. unfold write_batch_element, bind, py_get, ret.
  destruct (dict_get "id" kvs) as [| b | n | f | k | xs | ys] eqn:Hid; simpl.
  - done.
  - by destruct b.
  - by destruct (n =? 0).
  - by destruct (PrimFloat.eqb f 0).
  - destruct (String.eqb k ""); simpl; [done|].
    rewrite (Hmiss k eq_refl). rewrite bool_decide_eq_false_2; [done|].
    intros [? ?]; done.
  - destruct xs; [done | destruct Hp].
  - destruct ys; [done | destruct Hp].
Qed.

Lemma write_batch_element_cases E obj w :
  (exists e, write_batch_element E obj w = (Raise e, w))
  \/ write_batch_element E obj w = (Return tt, w)
  \/ (exists k r w',
        names k obj /\ store w !! k = Some r /\
        write_batch_element E obj w = (Return tt, w') /\
        store w' !! k = Some (written obj (time_time E (readings w)) r) /\
        (forall k', k' <> k -> store w' !! k' = store w !! k') /\
        outbound w' = outbound w /\ readings w' = S (readings w)).
Proof.
  destruct obj as [| b | n | f | s | xs | kvs];
    try (left; eexists; reflexivity).
  destruct (dict_get "id" kvs) as [| b | n | f | k | xs | ys] eqn:Hid.
  1-4: right; left; apply write_batch_element_miss; rewrite Hid; [done | intros; discriminate].
  - destruct (decide (k = "")) as [->|Hne].
    { right; left. unfold write_batch_element, bind, py_get, ret.
      rewrite Hid. reflexivity. }
    destruct (store w !! k) as [r|] eqn:Hk.
    + right; right.
      assert (Hn : names k (JObj kvs)) by (exists kvs; done).
      destruct (write_batch_element_hit E _ _ _ _ Hn Hk) as (w' & H1 & H2 & H3 & H4 & H5).
      exists k, r, w'. done.
    + right; left. apply write_batch_element_miss; rewrite Hid; [done|].
      intros k' [= <-]. done.
  - destruct xs as [|x xs].
    + right; left. apply write_batch_element_miss; rewrite Hid; [done | intros; discriminate].
    + left. unfold write_batch_element, bind, py_get, ret. rewrite Hid.
      eexists; reflexivity.
  - destruct ys as [|y ys].
    + right; left. apply write_batch_element_miss; rewrite Hid; [done | intros; discriminate].
    + left. unfold write_batch_element, bind, py_get, ret. rewrite Hid.
      eexists; reflexivity.
Qed.

(** ** Requests sent to the LLM *)

Lemma batch_user_messages_map batch :
  batch_user_messages (map i_text batch) (map i_id batch)
  = Return (map user_message batch).
Proof. induction batch as [|b bs IH]; simpl; [done|]. by rewrite IH. Qed.

Lemma process_batch_raised E batch w e :
  chat_completion E (length (outbound w)) (batch_request batch) = Raise e ->
  process_batch E batch w
  = batch_handlers batch (raise e) (sent (batch_request batch) w).
Proof.
  intros Hc. unfold process_batch, batch_handlers, try_finally, try_except.
  unfold call_groq_batch, bind, lift, post_chat.
  rewrite batch_user_messages_map. fold (batch_request batch). rewrite Hc.
  reflexivity.
Qed.

Lemma process_batch_replied E batch w content parsed :
  chat_completion E (length (outbound w)) (batch_request batch) = Return content ->
  extract_json_from_text (json_loads E) content = Return parsed ->
  process_batch E batch w
  = batch_handlers batch
      (if is_list_of_length parsed (length batch)
       then for_each (list_elements parsed) (write_batch_element E)
       else for_each batch (fallback_item E))
      (sent (batch_request batch) w).
Proof.
  intros Hc Hp. unfold process_batch, batch_handlers, try_finally, try_except.
  unfold call_groq_batch, bind, lift, post_chat.
  rewrite batch_user_messages_map. fold (batch_request batch). rewrite Hc.
  simpl. rewrite Hp. reflexivity.
Qed.

(** The acknowledgements of the [finally] clause touch the queue only. *)
Lemma task_done_loop {A} (xs : list A) w :
  store (snd (for_each xs (fun _ => task_done) w)) = store w /\
  outbound (snd (for_each xs (fun _ => task_done) w)) = outbound w /\
  cache (snd (for_each xs (fun _ => task_done) w)) = cache w.
Proof.
  revert w. induction xs as [|x xs IH]; intros w; simpl; [done|].
  unfold bind, task_done at 1 3 5.
  destruct (q_unfinished (queue w)) as [|n]; simpl; [done|].
  exact (IH (with_queue _ w)).
Qed.

Lemma mark_batch_error_run e b w :
  mark_batch_error e b w
  = match store w !! i_id b with
    | Some r =>
        (Return tt,
         with_store (insert (i_id b) (set_error (str_of_exn e) (set_status Error r)))
           (with_store (insert (i_id b) (set_status Error r)) w))
    | None => (Raise (KeyError (i_id b)), w)
    end.
Proof.
  unfold mark_batch_error, bind, store_setitem.
  destruct (store w !! i_id b) as [r|] eqn:Hk; [|done].
  simpl. rewrite lookup_insert_eq. done.
Qed.

Lemma mark_batch_error_loop_outbound e batch w :
  outbound (snd (for_each batch (mark_batch_error e) w)) = outbound w.
Proof.
  revert w. induction batch as [|b bs IH]; intros w; simpl; [done|].
  unfold bind. rewrite mark_batch_error_run.
  destruct (store w !! i_id b) as [r|] eqn:Hk; simpl; [|done].
  rewrite IH. done.
Qed.

Lemma batch_handlers_store batch body w :
  store (snd (batch_handlers batch body w))
  = match body w with
    | (Return _, w') => store w'
    | (Raise e, w') => store (snd (for_each batch (mark_batch_error e) w'))
    end.
Proof.
  unfold batch_handlers, try_finally, try_except.
  destruct (body w) as [[[]|e] w'].
  - pose proof (task_done_loop batch w') as (Hs & _).
    destruct (for_each batch _ w') as [[[]|e'] w'']; simpl in *; done.
  - destruct (for_each batch (mark_batch_error e) w') as [o w1].
    pose proof (task_done_loop batch w1) as (Hs & _).
    destruct (for_each batch _ w1) as [[[]|e'] w'']; simpl in *; done.
Qed.

Lemma batch_handlers_outbound batch body w :
  outbound (snd (batch_handlers batch body w)) = outbound (snd (body w)).
Proof.
  unfold batch_handlers, try_finally, try_except.
  destruct (body w) as [[[]|e] w'].
  - pose proof (task_done_loop batch w') as (_ & Hs & _).
    destruct (for_each batch _ w') as [[[]|e'] w'']; simpl in *; done.
  - pose proof (mark_batch_error_loop_outbound e batch w') as Ho.
    destruct (for_each batch (mark_batch_error e) w') as [o w1].
    pose proof (task_done_loop batch w1) as (_ & Hs & _).
    destruct (for_each batch _ w1) as [[[]|e'] w'']; simpl in *; congruence.
Qed.

(** ** The loop over the elements of a batch response *)




Lemma for_each_cons {A} (x : A) xs body w :
  for_each (x :: xs) body w
  = match body x w with
    | (Return _, w') => for_each xs body w'
    | (Raise e, w') => (Raise e, w')
    end.
Proof. reflexivity. Qed.


Lemma element_loop_outbound E ys w :
  outbound (snd (for_each ys (write_batch_element E) w)) = outbound w.
Proof.
  revert w. induction ys as [|y ys IH]; intros w; [done|].
  rewrite for_each_cons.
  destruct (write_batch_element_cases E y w)
    as [(e & ->) | [-> | (k & r & w' & _ & _ & -> & _ & _ & Ho & _)]]; simpl.
  - done.
  - apply IH.
  - rewrite IH. done.
Qed.







(** ** The parser never raises *)

Lemma extract_returns loads s :
  exists v, extract_json_from_text loads s = Return v.
Proof.
  unfold extract_json_from_text, try_pure.
  destruct (loads s) as [v|e]; [by eexists|].
  destruct (re_search_block s) as [m|]; [|by eexists].
  destruct (loads m) as [v|e']; by eexists.
Qed.

(** ** The per-item fallback *)

Lemma fallback_item_run E b r w :
  store w !! i_id b = Some r ->
  exists w',
    fallback_item E b w = (Return tt, w') /\
    outbound w' = (outbound w ++ [single_request b])%list /\
    (forall k, k <> i_id b -> store w' !! k = store w !! k) /\
    (forall out,
        chat_completion E (length (outbound w)) (single_request b) = Return out ->
        exists v, extract_json_from_text (json_loads E) out = Return v /\
          store w' !! i_id b
          = Some (fallback_done v out (time_time E (readings w)) r)) /\
    (forall e,
        chat_completion E (length (outbound w)) (single_request b) = Raise e ->
        store w' !! i_id b = Some (fallback_failed e r)).
Proof.
  intros Hk.
  unfold fallback_item, try_except, bind, call_groq_single, post_chat, lift.
  fold (single_request b).
  destruct (chat_completion E (length (outbound w)) (single_request b))
    as [out|e] eqn:Hc.
  - destruct (extract_returns (json_loads E) out) as (v & Hv). rewrite Hv.
    unfold store_setitem at 1. simpl. rewrite Hk. simpl.
    unfold store_setitem at 1. simpl. rewrite lookup_insert_eq.
    unfold now, read_clock, store_setitem. simpl. rewrite lookup_insert_eq.
    eexists. split; [reflexivity|]. simpl.
    split; [done|]. split; [intros k Hne; by rewrite !lookup_insert_ne|].
    split; [|intros; discriminate].
    intros out' [= <-]. exists v. split; [done|]. by rewrite lookup_insert_eq.
  - unfold store_setitem at 1. simpl. rewrite Hk. simpl.
    unfold store_setitem. simpl. rewrite lookup_insert_eq.
    eexists. split; [reflexivity|]. simpl.
    split; [done|]. split; [intros k Hne; by rewrite !lookup_insert_ne|].
    split; [intros; discriminate|].
    intros e' [= <-]. by rewrite lookup_insert_eq.
Qed.

Lemma fallback_loop E bs w :
  (forall b, b ∈ bs -> is_Some (store w !! i_id b)) ->
  exists w',
    for_each bs (fallback_item E) w = (Return tt, w') /\
    outbound w' = (outbound w ++ map single_request bs)%list /\
    (forall k, k ∉ map i_id bs -> store w' !! k = store w !! k) /\
    (forall k, is_Some (store w !! k) -> is_Some (store w' !! k)) /\
    (NoDup (map i_id bs) ->
     forall j b out, bs !! j = Some b ->
       chat_completion E (length (outbound w) + j) (single_request b) = Return out ->
       exists v r t,
         store w !! i_id b = Some r /\
         extract_json_from_text (json_loads E) out = Return v /\
         store w' !! i_id b = Some (fallback_done v out t r)).
Proof.
  revert w. induction bs as [|b0 bs IH]; intros w Hin.
  { exists w. simpl. rewrite app_nil_r. repeat split; done. }
  destruct (Hin b0 ltac:(left)) as [r0 Hr0].
  destruct (fallback_item_run E b0 r0 w Hr0) as (w1 & Hrun & Hout1 & Hoth1 & Hok1 & _).
  assert (Hkeep1 : forall k, is_Some (store w !! k) -> is_Some (store w1 !! k)).
  { intros k Hk. destruct (decide (k = i_id b0)) as [->|Hne].
    - destruct (chat_completion E (length (outbound w)) (single_request b0))
        as [out|e] eqn:Hc.
      + destruct (Hok1 out eq_refl) as (v & _ & ->). done.
      + destruct (fallback_item_run E b0 r0 w Hr0) as (w1' & Hrun' & _ & _ & _ & Hf).
        rewrite Hrun in Hrun'. injection Hrun' as <-. rewrite (Hf e Hc). done.
    - by rewrite Hoth1. }
  destruct (IH w1) as (w' & Hloop & Hout & Hoth & Hkeep & Hres).
  { intros b Hb. apply Hkeep1, Hin. by right. }
  exists w'. rewrite for_each_cons, Hrun.
  split; [done|]. split.
  { rewrite Hout, Hout1. simpl. by rewrite <- app_assoc. }
  split.
  { intros k Hk. simpl in Hk. apply not_elem_of_cons in Hk as [Hne Hk].
    rewrite Hoth by done. by apply Hoth1. }
  split; [intros k Hk; by apply Hkeep, Hkeep1|].
  intros Hnd j b out Hj Hc. simpl in Hnd. apply NoDup_cons in Hnd as [Hnotin Hnd].
  destruct j as [|j]; simpl in Hj.
  - injection Hj as <-. rewrite Nat.add_0_r in Hc.
    destruct (Hok1 out Hc) as (v & Hv & Hw1).
    exists v, r0, (time_time E (readings w)). repeat split; try done.
    by rewrite Hoth.
  - destruct (Hres Hnd j b out Hj) as (v & r & t & Hr & Hv & Hw').
    { rewrite Hout1, length_app. simpl.
      replace (length (outbound w) + 1 + j)%nat with (length (outbound w) + S j)%nat by lia.
      done. }
    exists v, r, t. repeat split; try done.
    rewrite <- Hr. symmetry. apply Hoth1.
    intros Heq. apply Hnotin. rewrite <- Heq.
    apply list_elem_of_fmap. exists b. split; [done|].
    by apply list_elem_of_lookup_2 in Hj.
Qed.

(** ** The span the parser decodes *)

Lemma upto_last_none d s : upto_last d s = None <-> occurs d s = false.
Proof.
  induction s as [|c r IH]; simpl; [done|].
  destruct (upto_last d r) as [body|].
  - split; [done|]. intros H. apply orb_false_iff in H as [_ H].
    apply IH in H. done.
  - destruct (Ascii.eqb c d); simpl; [done|].
    split; intros _; [by apply IH | done].
Qed.

Lemma upto_last_some d s body :
  upto_last d s = Some body ->
  exists mid post,
    s = body ++ post /\ body = mid ++ String d EmptyString /\
    occurs d post = false.
Proof.
  revert body. induction s as [|c r IH]; intros body; simpl; [done|].
  destruct (upto_last d r) as [body'|] eqn:Hr.
  - intros [= <-]. destruct (IH body' eq_refl) as (mid & post & -> & -> & Hp).
    exists (String c mid), post. done.
  - destruct (Ascii.eqb c d) eqn:Hc; [|done].
    intros [= <-]. apply Ascii.eqb_eq in Hc as ->.
    exists EmptyString, r. repeat split. by apply upto_last_none.
Qed.

Lemma re_search_block_some s m :
  re_search_block s = Some m ->
  exists pre post op cl mid,
    bracket op cl /\
    s = pre ++ m ++ post /\
    m = String op (mid ++ String cl EmptyString) /\
    occurs cl post = false /\
    no_match_starts pre (m ++ post).
Proof.
  revert m. induction s as [|c r IH]; intros m; simpl; [done|].
  destruct (Ascii.eqb c "{") eqn:Hc1.
  - apply Ascii.eqb_eq in Hc1 as ->.
    destruct (upto_last "}" r) as [body|] eqn:Hu.
    + intros [= <-]. destruct (upto_last_some _ _ _ Hu) as (mid & post & -> & -> & Hp).
      exists EmptyString, post, "{"%char, "}"%char, mid.
      repeat split; try done. by left.
    + intros Hm. destruct (IH m Hm) as (pre & post & op & cl & mid & Hb & -> & -> & Hp & Hn).
      exists (String "{" pre), post, op, cl, mid.
      repeat split; try done. intros _. by apply upto_last_none.
  - destruct (Ascii.eqb c "[") eqn:Hc2.
    + apply Ascii.eqb_eq in Hc2 as ->.
      destruct (upto_last "]" r) as [body|] eqn:Hu.
      * intros [= <-]. destruct (upto_last_some _ _ _ Hu) as (mid & post & -> & -> & Hp).
        exists EmptyString, post, "["%char, "]"%char, mid.
        repeat split; try done. by right.
      * intros Hm. destruct (IH m Hm) as (pre & post & op & cl & mid & Hb & -> & -> & Hp & Hn).
        exists (String "[" pre), post, op, cl, mid.
        repeat split; try done. intros _. by apply upto_last_none.
    + intros Hm. destruct (IH m Hm) as (pre & post & op & cl & mid & Hb & -> & -> & Hp & Hn).
      exists (String c pre), post, op, cl, mid.
      repeat split; try done.
      * intros ->. done.
      * intros ->. done.
Qed.

Lemma re_search_block_none s :
  re_search_block s = None -> no_match_starts s EmptyString.
Proof.
  induction s as [|c r IH]; simpl; [done|].
  destruct (Ascii.eqb c "{") eqn:Hc1.
  - apply Ascii.eqb_eq in Hc1 as ->.
    destruct (upto_last "}" r) as [body|] eqn:Hu; [done|].
    intros Hn. repeat split; try done; [|by apply IH].
    intros _. apply upto_last_none in Hu.
    clear -Hu. revert Hu. generalize "}"%char. induction r; simpl; intros; [done|].
    apply orb_false_iff in Hu as [-> Hu]. simpl. by apply IHr.
  - destruct (Ascii.eqb c "[") eqn:Hc2.
    + apply Ascii.eqb_eq in Hc2 as ->.
      destruct (upto_last "]" r) as [body|] eqn:Hu; [done|].
      intros Hn. repeat split; try done; [|by apply IH].
      intros _. apply upto_last_none in Hu.
      clear -Hu. revert Hu. generalize "]"%char. induction r; simpl; intros; [done|].
      apply orb_false_iff in Hu as [-> Hu]. simpl. by apply IHr.
    + intros Hn. repeat split; [intros ->; done | intros ->; done | by apply IH].
Qed.

(** C9. [extract_json_from_text] is total: on every string, whatever the
    decoder does on it (including raising on the whole text and on the
    bracketed span), it returns a value ([None] is [JNull]) and never
    raises. *)
Theorem extract_json_from_text_total (loads : string -> outcome json) (s : string) :
  exists v, extract_json_from_text loads s = Return v.
Proof.
  unfold extract_json_from_text, try_pure.
  destruct (loads s) as [v|e].
  - (* direct load *) exists v. reflexivity.
  - destruct (re_search_block s) as [m|].
    + destruct (loads m) as [v|e'].
      * exists v. reflexivity.
      * (* the span does not decode *) exists JNull. reflexivity.
    + (* no span *) exists JNull. reflexivity.
Qed.

(** C8, as stated, fails: on a text holding two objects the direct decode
    fails, the first balanced span is the first object and decodes, yet
    the parser decodes the span that runs to the last closing brace and
    returns [None]. *)
Lemma extract_not_first_balanced_span :
  decode two_objects = Raise (JSONDecodeError "Expecting value") /\
  spec_first_balanced_span two_objects = Some (dq "{'a':1}") /\
  spec_extract decode two_objects = Return (JObj [("a", JInt 1)]) /\
  re_search_block two_objects = Some (dq "{'a':1} y {'b':2}") /\
  extract_json_from_text decode two_objects = Return JNull /\
  extract_json_from_text decode two_objects <> spec_extract decode two_objects.
Proof. vm_compute. repeat split; done. Qed.

(** C8, amended. Parsing first attempts a direct decode of the whole
    string; if that raises, it decodes the span matched by the pattern:
    the span starts at the leftmost opening delimiter that has a closing
    delimiter of its kind somewhere after it, and runs to the last such
    closing delimiter of the string (greedy); when no span exists or the
    span does not decode, the result is [None]. *)
Theorem extract_decodes_greedy_span (loads : string -> outcome json) (s : string) :
  extract_json_from_text loads s
  = match loads s with
    | Return v => Return v
    | Raise _ =>
        match re_search_block s with
        | Some m => match loads m with
                    | Return v => Return v
                    | Raise _ => Return JNull
                    end
        | None => Return JNull
        end
    end
  /\ match re_search_block s with
     | Some m =>
         exists pre post op cl mid,
           bracket op cl /\
           s = pre ++ m ++ post /\
           m = String op (mid ++ String cl EmptyString) /\
           occurs cl post = false /\
           no_match_starts pre (m ++ post)
     | None => no_match_starts s EmptyString
     end.
Proof.
  split.
  - unfold extract_json_from_text, try_pure.
    destruct (loads s); [done|]. destruct (re_search_block s); done.
  - destruct (re_search_block s) as [m|] eqn:Hm.
    + by apply re_search_block_some.
    + by apply re_search_block_none.
Qed.

(** ** Admission *)

Lemma py_int_floor (x : Q) (q : Z) :
  (0 <= q)%Z -> (py_int x <=? q)%Z = (Qfloor x <=? q)%Z.
Proof.
  intros Hq. destruct x as [n d]. unfold py_int, Qfloor. simpl.
  destruct (Z_lt_le_dec n 0) as [Hn|Hn].
  - assert (n / Z.pos d < 0)%Z by (apply Z.div_lt_upper_bound; lia).
    assert (n ÷ Z.pos d <= 0)%Z.
    { replace n with (- (- n))%Z by lia. rewrite Z.quot_opp_l by lia.
      pose proof (Z.quot_pos (- n) (Z.pos d)). lia. }
    transitivity true; [|symmetry]; apply Z.leb_le; lia.
  - by rewrite Z.quot_div_nonneg by lia.
Qed.

Lemma backpressure_check (cfg : config) (w : world) :
  (backpressure_limit cfg <=? qsize (queue w))%Z = true <-> over_threshold cfg w.
Proof.
  unfold backpressure_limit, over_threshold.
  rewrite py_int_floor by (unfold qsize; lia). apply Z.leb_le.
Qed.

Lemma is_not_none_false v : is_not_none v = false <-> v = JNull.
Proof. destruct v; simpl; split; intros; done. Qed.

Lemma analyze_cases E cfg req w :
  (text_blob req = "" /\
   analyze E cfg req w = (HTTPException 400 "No text provided in request", w))
  \/ (text_blob req <> "" /\ cache_get (cache_key E req) w <> JNull /\
      exists body w', analyze E cfg req w = (Respond body, w') /\
        queue w' = queue w /\
        dom (store w') = {[uuid4_hex E (drawn w)]} ∪ dom (store w))
  \/ (text_blob req <> "" /\ cache_get (cache_key E req) w = JNull /\
      over_threshold cfg w /\
      analyze E cfg req w
      = (HTTPException 429 "Server overloaded — try again later", w))
  \/ (text_blob req <> "" /\ cache_get (cache_key E req) w = JNull /\
      ~ over_threshold cfg w /\
      exists o w', analyze E cfg req w = (o, w') /\
        (forall code detail, o <> HTTPException code detail) /\
        dom (store w') = {[uuid4_hex E (drawn w)]} ∪ dom (store w)).
Proof.
  unfold analyze. fold (cache_key E req).
  destruct (String.eqb_spec (text_blob req) "") as [Hb|Hb]; [by left|].
  right.
  destruct (is_not_none (cache_get (cache_key E req) w)) eqn:Hc.
  - left. split; [done|]. split.
    { intros H. rewrite H in Hc. done. }
    simpl. eexists _, _. split; [reflexivity|]. simpl.
    split; [done|]. by rewrite dom_insert_L.
  - right. apply is_not_none_false in Hc.
    destruct (backpressure_limit cfg <=? qsize (queue w))%Z eqn:Hq.
    + left. apply backpressure_check in Hq. done.
    + right. repeat split; try done.
      { intros H. apply backpressure_check in H. congruence. }
      simpl. destruct (full (queue w)); eexists _, _;
        (split; [reflexivity|]); simpl; (split; [done|]); by rewrite dom_insert_L.
Qed.

(** The cache is consulted before the queue: with one request waiting the
    queue is at the threshold, and a request whose text has a cache entry
    is still answered from the cache. It is not a rejection. *)
Lemma cache_hit_served_over_threshold :
  over_threshold small_cfg busy_warm_world
  /\ store busy_warm_world !! "r1" = None
  /\ fst (analyze E0 small_cfg req_TA busy_warm_world)
     = Respond (JObj [("request_id", JStr "r1"); ("status", JStr "done");
                      ("cached", JBool true)])
  /\ store (snd (analyze E0 small_cfg req_TA busy_warm_world)) !! "r1"
     = Some {| status := Done; queued_at := 101%float;
               finished_at := Some 101%float; result := cached_TA;
               error := None |}.
Proof.
  split; [apply Z.leb_le; reflexivity|]. vm_compute. repeat split; reflexivity.
Qed.



(** C5. A request whose [text_blob] has a cache entry is answered from the
    cache: the handler draws a new id from the id generator, stores under
    it a record with [status = Done], [finished_at] equal to [queued_at]
    (one clock reading) and the cached object as [result], replies
    [{request_id, status: "done", cached: true}], and leaves the queue
    untouched. *)
Theorem cache_hit_answered_done (E : env) (cfg : config) (req : AnalyzeRequest)
    (w : world) (cached : json) :
  text_blob req <> "" ->
  cache w !! cache_key E req = Some cached ->
  cached <> JNull ->
  let rid := uuid4_hex E (drawn w) in
  let t := time_time E (readings w) in
  exists w',
    analyze E cfg req w
    = (Respond (JObj [("request_id", JStr rid); ("status", JStr "done");
                      ("cached", JBool true)]), w') /\
    store w' = <[rid := {| status := Done; queued_at := t; finished_at := Some t;
                           result := cached; error := None |}]> (store w) /\
    queue w' = queue w /\ cache w' = cache w /\ outbound w' = outbound w /\
    drawn w' = S (drawn w).
Proof.
  intros Hb Hc Hn rid t. unfold analyze. fold (cache_key E req).
  destruct (String.eqb_spec (text_blob req) "") as [|_]; [done|].
  unfold cache_get. rewrite Hc.
  destruct (is_not_none cached) eqn:Hnn.
  - eexists. split; [reflexivity|]. done.
  - apply is_not_none_false in Hnn. done.
Qed.

(** With an entry cached for the text of [req_TA], the request is answered
    done under the first id drawn. *)
Lemma cache_hit_answered_done_witness :
  exists w',
    analyze E0 default_cfg req_TA warm_world
    = (Respond (JObj [("request_id", JStr "r0"); ("status", JStr "done");
                      ("cached", JBool true)]), w') /\
    store w' = <["r0" := {| status := Done; queued_at := 100%float;
                            finished_at := Some 100%float;
                            result := cached_TA; error := None |}]> ∅ /\
    queue w' = queue warm_world /\ cache w' = cache warm_world /\
    outbound w' = outbound warm_world /\ drawn w' = 1%nat.
Proof.
  apply (cache_hit_answered_done E0 default_cfg req_TA warm_world cached_TA).
  - vm_compute. discriminate.
  - reflexivity.
  - discriminate.
Defined.

(** ** The worker and the set of request ids *)

Lemma write_batch_element_terminal_kept E obj :
  keeps terminal_kept (write_batch_element E obj).
Proof.
  intros w k r Hk Ht.
  destruct (write_batch_element_cases E obj w)
    as [(e & ->) | [-> | (k0 & r0 & w' & _ & Hk0 & -> & Hw & Hoth & _)]];
    simpl; eauto.
  destruct (decide (k = k0)) as [->|Hne].
  - eexists. split; [exact Hw|]. by left.
  - rewrite Hoth by done. eauto.
Qed.

(** C10, as stated, fails: an element whose [id] is a non-empty list is not
    a key of the store, yet the loop body raises on it ([TypeError]), and
    the worker then marks the items of the batch as failed. *)
Lemma unhashable_id_not_ignored :
  let E := scenario_env digest_stub [Return (dq "[{'id':['r9']}]")] in
  let w := snd (analyze E default_cfg req_TA (startup default_cfg)) in
  decode (dq "[{'id':['r9']}]") = Return (JArr [JObj [("id", JArr [JStr "r9"])]])
  /\ write_batch_element E (JObj [("id", JArr [JStr "r9"])]) w
     = (Raise (TypeError "unhashable type: 'list'"), w)
  /\ (store w !! "r0"
      = Some {| status := Queued; queued_at := 100%float; finished_at := None;
                result := JNull; error := None |})
  /\ (exists w', worker_iteration E default_cfg 0 w = Some (Return tt, w') /\
        store w' !! "r0"
        = Some {| status := Error; queued_at := 100%float; finished_at := None;
                  result := JNull;
                  error := Some "unhashable type: 'list'" |}).
Proof.
  vm_compute. repeat split; try done. eexists. split; reflexivity.
Qed.

(** C10, amended. Workers never create store entries: any sequence of
    worker writes (and so any batch run and any iteration of a worker)
    leaves the set of request ids of the store as it was, and the set
    grows only in the admission handler, by the id it draws. A parsed
    batch element that is an object whose [id] is missing, falsy, or a
    string, number or boolean that is not a key of the store is passed
    over: the loop body returns normally and changes nothing. *)
Theorem workers_never_create_entries (E : env) (cfg : config) :
  (forall w w', worker_steps E cfg w w' -> dom (store w') = dom (store w))
  /\ (forall batch w, dom (store (snd (process_batch E batch w))) = dom (store w))
  /\ (forall req w,
        dom (store w) ⊆ dom (store (snd (analyze E cfg req w))) /\
        dom (store (snd (analyze E cfg req w)))
          ⊆ {[uuid4_hex E (drawn w)]} ∪ dom (store w))
  /\ (forall kvs w,
        passable (dict_get "id" kvs) ->
        (forall k, dict_get "id" kvs = JStr k -> store w !! k = None) ->
        write_batch_element E (JObj kvs) w = (Return tt, w)).
Proof.
  split; [|split; [|split]].
  - intros w w'. apply worker_steps_same_keys.
  - intros batch w.
    apply (worker_steps_same_keys E cfg w), (ws_batch E cfg batch), ws_refl.
  - intros req w.
    destruct (analyze_cases E cfg req w)
      as [(_ & Hr) | [(_ & _ & body & w1 & Hr & _ & Hd)
         | [(_ & _ & _ & Hr) | (_ & _ & _ & o & w1 & Hr & _ & Hd)]]];
      rewrite Hr; simpl; try rewrite Hd; split;
      intros x Hx; rewrite ?elem_of_union in *; auto.
  - intros kvs w. apply write_batch_element_miss.
Qed.

(** A response naming an unknown id and an element without id: the ids of
    the store are the same after the batch run, and both elements are
    passed over. *)
Lemma workers_never_create_entries_witness :
  let E := scenario_env digest_stub [Return (dq "[{'id':'zz'},{'summary':'s'}]")] in
  let w := snd (analyze E default_cfg req_TA (startup default_cfg)) in
  let batch := q_items (queue w) in
  dom (store (snd (process_batch E batch w))) = dom (store w)
  /\ write_batch_element E (JObj [("id", JStr "zz")]) w = (Return tt, w)
  /\ write_batch_element E (JObj [("summary", JStr "s")]) w = (Return tt, w).
Proof.
  intros E w batch. split; [|split].
  - apply (proj1 (workers_never_create_entries E default_cfg)).
    apply (ws_batch E default_cfg batch), ws_refl.
  - apply (proj2 (proj2 (proj2 (workers_never_create_entries E default_cfg)))).
    + exact I.
    + intros k [= <-]. reflexivity.
  - apply (proj2 (proj2 (proj2 (workers_never_create_entries E default_cfg)))).
    + exact I.
    + intros k H. vm_compute in H. discriminate.
Defined.

(** ** Terminal records *)

(** C3, as stated, fails: a batch response with the id [r0] twice writes
    the record of [r0] twice, the second write changing the [result] and
    [finished_at] of a record that is already done; and a response whose
    second element is not an object turns the record that the first
    element completed from done to error. *)
Lemma terminal_record_rewritten :
  let E := scenario_env digest_stub [Return ids_reply_twice_r0] in
  let w1 := snd (write_batch_element E elem_x (two_waiting E)) in
  let w2 := snd (write_batch_element E elem_y w1) in
  let E' := scenario_env digest_stub [Return (dq "[{'id':'r0','summary':'x'},5]")] in
  (store w1 !! "r0"
   = Some {| status := Done; queued_at := 100%float; finished_at := Some 102%float;
             result := elem_x; error := None |})
  /\ (store w2 !! "r0"
      = Some {| status := Done; queued_at := 100%float;
                finished_at := Some 103%float; result := elem_y; error := None |})
  /\ elem_x <> elem_y
  /\ (exists w', worker_iteration E default_cfg 1 (two_waiting E)
                 = Some (Return tt, w') /\
        store w' !! "r0"
        = Some {| status := Done; queued_at := 100%float;
                  finished_at := Some 103%float; result := elem_y;
                  error := None |})
  /\ (exists w', worker_iteration E' default_cfg 1 (two_waiting E')
                 = Some (Return tt, w') /\
        store w' !! "r0"
        = Some {| status := Error; queued_at := 100%float;
                  finished_at := Some 102%float; result := elem_x;
                  error := Some "'int' object has no attribute 'get'" |}).
Proof.
  vm_compute. repeat split; try done; eexists; split; reflexivity.
Qed.

(** C3, amended. A record that is terminal stays terminal: once its status
    is done or error, no sequence of worker writes (elements of batch
    responses, duplicate ids included, per-item fallbacks, error marking,
    whole batch runs) takes the status back to queued or processing. The
    fields of a terminal record can still be written again. *)
Theorem terminal_stays_terminal (E : env) (cfg : config) (w w' : world)
    (k : string) (r : lifecycle) :
  worker_steps E cfg w w' ->
  store w !! k = Some r -> terminal r ->
  exists r', store w' !! k = Some r' /\ terminal r'.
Proof.
  intros Hsteps. by apply (worker_steps_terminal_kept E cfg w w').
Qed.

(** The record of [r0], done after the first element, is still terminal
    after the second element with the same id. *)
Lemma terminal_stays_terminal_witness :
  let E := scenario_env digest_stub [Return ids_reply_twice_r0] in
  let w1 := snd (write_batch_element E elem_x (two_waiting E)) in
  exists r', store (snd (write_batch_element E elem_y w1)) !! "r0" = Some r' /\
             terminal r'.
Proof.
  intros E w1.
  refine (terminal_stays_terminal E default_cfg w1 _ "r0"
            {| status := Done; queued_at := 100%float; finished_at := Some 102%float;
               result := elem_x; error := None |} _ _ _).
  - apply (ws_element E default_cfg elem_y), ws_refl.
  - reflexivity.
  - left. reflexivity.
Defined.

(** ** Demultiplexing a batch response *)




(** ** Results of the per-item fallback *)

(** C6, as stated, fails: the single call returns the text of an empty
    object, which decodes, yet the stored result is the raw text and not
    the decoded object. *)
Lemma empty_object_reply_stored_raw :
  let E := scenario_env digest_stub [Return "I cannot comply."; Return "{}"] in
  let w := snd (analyze E default_cfg req_TA (startup default_cfg)) in
  decode "{}" = Return (JObj [])
  /\ extract_json_from_text decode "{}" = Return (JObj [])
  /\ (exists w', worker_iteration E default_cfg 0 w = Some (Return tt, w') /\
        store w' !! "r0"
        = Some {| status := Done; queued_at := 100%float;
                  finished_at := Some 101%float;
                  result := JObj [("raw", JStr "{}")]; error := None |}).
Proof.
  vm_compute. repeat split; try done. eexists. split; reflexivity.
Qed.

(** C6, amended. In a batch run that takes the per-item fallback (the batch
    call returned and its content is not an array of the batch length),
    with the items of the batch recorded in the store under distinct ids,
    every item whose single call returns ends with status done, never
    error, and a [finished_at]; its result is the decoded value when that
    value is truthy, and [{"raw": content}] when the content does not
    decode or decodes to a falsy value (null, false, zero, an empty
    string, array or object). *)
Theorem fallback_success_is_done (E : env) (batch : list item) (w : world)
    (content : string) (parsed : json) (j : nat) (b : item) (out : string) :
  chat_completion E (length (outbound w)) (batch_request batch) = Return content ->
  extract_json_from_text (json_loads E) content = Return parsed ->
  is_list_of_length parsed (length batch) = false ->
  (forall b', b' ∈ batch -> is_Some (store w !! i_id b')) ->
  NoDup (map i_id batch) ->
  batch !! j = Some b ->
  chat_completion E (S (length (outbound w)) + j) (single_request b) = Return out ->
  exists v r',
    extract_json_from_text (json_loads E) out = Return v /\
    store (snd (process_batch E batch w)) !! i_id b = Some r' /\
    status r' = Done /\
    result r' = (if py_truthy v then v else JObj [("raw", JStr out)]) /\
    is_Some (finished_at r').
Proof.
  intros Hc Hp Hno Hin Hnd Hj Hout.
  rewrite (process_batch_replied E batch w content parsed Hc Hp), Hno.
  rewrite batch_handlers_store.
  destruct (fallback_loop E batch (sent (batch_request batch) w) Hin)
    as (w2 & Hrun & _ & _ & _ & Hres).
  rewrite Hrun.
  destruct (Hres Hnd j b out Hj) as (v & r & t & Hr & Hv & Hw2).
  { simpl. rewrite length_app. simpl.
    replace (length (outbound w) + 1 + j)%nat with (S (length (outbound w)) + j)%nat by lia.
    done. }
  exists v, (fallback_done v out t r). repeat split; done.
Qed.

(** The batch reply is prose; the single call for [r1] returns an object
    wrapped in prose, which the parser recovers. *)
Lemma fallback_success_is_done_witness :
  let E := scenario_env digest_stub
             [Return "I cannot comply."; Return "{}";
              Return (dq "Sure: {'summary':'s'}")] in
  let w := two_waiting E in
  let batch := q_items (queue w) in
  exists v r',
    extract_json_from_text decode (dq "Sure: {'summary':'s'}") = Return v /\
    store (snd (process_batch E batch w)) !! "r1" = Some r' /\
    status r' = Done /\
    result r' = (if py_truthy v then v
                 else JObj [("raw", JStr (dq "Sure: {'summary':'s'}"))]) /\
    is_Some (finished_at r').
Proof.
  intros E w batch.
  refine (fallback_success_is_done E batch w "I cannot comply." JNull 1
            {| i_id := "r1"; i_text := "hello"; i_submitted_at := 101%float;
               i_cache_key := "analyze:hello" |}
            (dq "Sure: {'summary':'s'}") _ _ _ _ _ _ _).
  - reflexivity.
  - reflexivity.
  - reflexivity.
  - intros b' Hb'. vm_compute in Hb'.
    apply elem_of_cons in Hb' as [Hb'|Hb']; [subst b'; by eexists|].
    apply elem_of_cons in Hb' as [Hb'|Hb']; [subst b'; by eexists|].
    by apply elem_of_nil in Hb'.
  - vm_compute. apply NoDup_cons. split; [|apply NoDup_singleton].
    intros H. apply list_elem_of_singleton in H. discriminate.
  - reflexivity.
  - reflexivity.
Defined.

(** ** The cache and the error path *)

(** C1, on the code. A request is admitted, the worker resolves it from a
    well-formed batch response (status done, the element as result, a
    [finished_at]); the worker writes nothing into the cache, so the same
    [text_blob] submitted again is not answered from the cache: it is
    queued under a new id for another LLM call. *)
Theorem second_submission_not_answered_from_cache (digest : string -> string) :
  let E := scenario_env digest [Return reply_r0] in
  let w1 := snd (analyze E default_cfg req_TA (startup default_cfg)) in
  exists w2,
    worker_iteration E default_cfg 0 w1 = Some (Return tt, w2) /\
    store w2 !! "r0"
    = Some {| status := Done; queued_at := 100%float; finished_at := Some 101%float;
              result := elem_r0; error := None |} /\
    cache w2 = ∅ /\
    fst (analyze E default_cfg req_TA w2)
    = Respond (JObj [("request_id", JStr "r1"); ("status", JStr "queued")]) /\
    map i_id (q_items (queue (snd (analyze E default_cfg req_TA w2)))) = ["r1"].
Proof.
  intros E w1.
  exists (snd (process_batch E (q_items (queue w1))
                 (with_queue (fun q => {| q_items := []; q_unfinished := q_unfinished q;
                                          q_maxsize := q_maxsize q |}) w1))).
  vm_compute. repeat split; reflexivity.
Qed.

(** C7, on the code. When the batch call fails, and when a per-item call
    fails, the record is marked error and its [finished_at] stays [None]. *)
Theorem error_record_has_no_finished_at :
  let E := scenario_env digest_stub [Raise (UpstreamError "503 Service Unavailable")] in
  let F := scenario_env digest_stub
             [Return "I cannot comply."; Raise (UpstreamError "timed out")] in
  let w := snd (analyze E default_cfg req_TA (startup default_cfg)) in
  (exists w', worker_iteration E default_cfg 0 w = Some (Return tt, w') /\
     store w' !! "r0"
     = Some {| status := Error; queued_at := 100%float; finished_at := None;
               result := JNull; error := Some "503 Service Unavailable" |})
  /\ (exists w', worker_iteration F default_cfg 0 w = Some (Return tt, w') /\
        store w' !! "r0"
        = Some {| status := Error; queued_at := 100%float; finished_at := None;
                  result := JNull; error := Some "timed out" |}).
Proof.
  split; eexists; (split; [vm_compute; reflexivity|]); reflexivity.
Qed.

(** * Further properties *)

(** ** Trimming and the text of a request *)

Lemma lstrip_empty s : lstrip s = "" <-> all_space s = true.
Proof.
  induction s as [|c r IH]; simpl; [done|].
  destruct (is_space c); simpl; [exact IH|]. split; intros; discriminate.
Qed.




Lemma all_space_empty s : s = "" -> all_space s = true.
Proof. by intros ->. Qed.






Lemma string_app_cons c (r s : string) : String c r ++ s = String c (r ++ s).
Proof. reflexivity. Qed.

Lemma string_app_nil_r (s : string) : s ++ "" = s.
Proof. induction s as [|c r IH]; [done|]. by rewrite string_app_cons, IH. Qed.

Lemma string_app_assoc (a b c : string) : (a ++ b) ++ c = a ++ (b ++ c).
Proof. induction a as [|x r IH]; [done|]. by rewrite !string_app_cons, IH. Qed.

Lemma rev_onto_app s acc : string_rev_onto s acc = string_rev s ++ acc.
Proof.
  unfold string_rev. revert acc. induction s as [|c r IH]; intros acc; simpl; [done|].
  rewrite IH, (IH (String c "")), string_app_assoc. done.
Qed.

Lemma rev_cons c s : string_rev (String c s) = string_rev s ++ String c "".
Proof. unfold string_rev at 1. simpl. apply rev_onto_app. Qed.

Lemma rev_app a b : string_rev (a ++ b) = string_rev b ++ string_rev a.
Proof.
  induction a as [|c r IH].
  - change (string_rev "") with "". by rewrite string_app_nil_r.
  - rewrite string_app_cons, !rev_cons, IH, string_app_assoc. done.
Qed.

Lemma rev_involutive s : string_rev (string_rev s) = s.
Proof.
  induction s as [|c r IH]; [done|].
  rewrite rev_cons, rev_app, IH. done.
Qed.

Lemma lstrip_app a b :
  lstrip (a ++ b) = if all_space a then lstrip b else lstrip a ++ b.
Proof.
  induction a as [|c r IH]; [done|].
  rewrite string_app_cons. simpl.
  destruct (is_space c); simpl; [exact IH | done].
Qed.

Lemma rstrip_cons c s :
  is_space c = false -> rstrip (String c s) = String c (rstrip s).
Proof.
  intros Hc. unfold rstrip. rewrite rev_cons, lstrip_app.
  destruct (all_space (string_rev s)) eqn:Hs.
  - apply lstrip_empty in Hs. rewrite Hs. simpl. by rewrite Hc.
  - rewrite rev_app. done.
Qed.

Lemma lstrip_idem s : lstrip (lstrip s) = lstrip s.
Proof.
  induction s as [|c r IH]; simpl; [done|].
  destruct (is_space c) eqn:Hc; [exact IH|]. simpl. by rewrite Hc.
Qed.

Lemma lstrip_shape s :
  lstrip s = "" \/ exists c r, lstrip s = String c r /\ is_space c = false.
Proof.
  induction s as [|c r IH]; simpl; [by left|].
  destruct (is_space c) eqn:Hc; [exact IH|]. right. eauto.
Qed.

(** X2. The text built from a request is trimmed: it neither starts nor
    ends with white space, so trimming it again changes nothing. This is
    the text that is hashed for the cache key and sent to the model. *)
Theorem text_blob_trimmed (req : AnalyzeRequest) :
  lstrip (text_blob req) = text_blob req /\
  rstrip (text_blob req) = text_blob req /\
  strip (text_blob req) = text_blob req.
Proof.
  unfold text_blob.
  set (s := join (nl ++ nl) _).
  assert (Hl : lstrip (strip s) = strip s).
  { unfold strip. destruct (lstrip_shape s) as [-> | (c & r & -> & Hc)]; [done|].
    rewrite rstrip_cons by done. simpl. by rewrite Hc. }
  assert (Hr : rstrip (strip s) = strip s).
  { unfold strip, rstrip. rewrite rev_involutive, lstrip_idem. done. }
  split; [exact Hl|]. split; [exact Hr|].
  unfold strip at 1. rewrite Hl. exact Hr.
Qed.

(** ** Recovery of a value wrapped in prose *)

Lemma upto_last_closing d mid post :
  occurs d post = false ->
  upto_last d (mid ++ String d post) = Some (mid ++ String d "").
Proof.
  intros Hp. induction mid as [|c r IH].
  - simpl. apply upto_last_none in Hp. rewrite Hp. by rewrite Ascii.eqb_refl.
  - rewrite !string_app_cons. simpl. by rewrite IH.
Qed.

Lemma re_search_block_skip pre rest :
  occurs "{" pre = false -> occurs "[" pre = false ->
  re_search_block (pre ++ rest) = re_search_block rest.
Proof.
  induction pre as [|c r IH]; [done|]. simpl.
  intros H1 H2. apply orb_false_iff in H1 as [Hc1 H1].
  apply orb_false_iff in H2 as [Hc2 H2].
  rewrite Hc1, Hc2. by apply IH.
Qed.

Lemma re_search_block_wrapped pre mid post op cl :
  bracket op cl ->
  occurs "{" pre = false -> occurs "[" pre = false -> occurs cl post = false ->
  re_search_block (pre ++ String op (mid ++ String cl "") ++ post)
  = Some (String op (mid ++ String cl "")).
Proof.
  intros Hb H1 H2 Hp. rewrite re_search_block_skip by done.
  rewrite string_app_cons, string_app_assoc, string_app_cons.
  change ("" ++ post) with post.
  destruct Hb as [[-> ->] | [-> ->]]; simpl; by rewrite upto_last_closing.
Qed.

(** X3. A JSON object or array wrapped in prose is recovered: when the
    text before the opening delimiter holds no opening delimiter, the text
    after the closing delimiter holds no closing delimiter of that kind,
    and the whole text does not decode, the parser returns what the
    decoder gives on exactly the bracketed span ([None] if that span does
    not decode either). *)
Theorem extract_recovers_wrapped (loads : string -> outcome json)
    (pre mid post : string) (op cl : ascii) (e : exn) :
  bracket op cl ->
  occurs "{" pre = false -> occurs "[" pre = false -> occurs cl post = false ->
  loads (pre ++ String op (mid ++ String cl "") ++ post) = Raise e ->
  extract_json_from_text loads (pre ++ String op (mid ++ String cl "") ++ post)
  = match loads (String op (mid ++ String cl "")) with
    | Return v => Return v
    | Raise _ => Return JNull
    end.
Proof.
  intros Hb H1 H2 Hp He. unfold extract_json_from_text, try_pure.
  rewrite He, (re_search_block_wrapped pre mid post op cl Hb H1 H2 Hp). done.
Qed.

(** A reply that opens with a sentence and closes with another. *)
Lemma extract_recovers_wrapped_witness :
  extract_json_from_text decode
    ("Sure, here it is: " ++ String "{" (dq "'summary':'s'" ++ String "}" "")
     ++ " Hope it helps.")
  = Return (JObj [("summary", JStr "s")]).
Proof.
  rewrite (extract_recovers_wrapped decode "Sure, here it is: " (dq "'summary':'s'")
             " Hope it helps." "{" "}" (JSONDecodeError "Expecting value")).
  - reflexivity.
  - left. split; reflexivity.
  - reflexivity.
  - reflexivity.
  - reflexivity.
  - reflexivity.
Defined.

(** ** Admission: the accepted request, the bounds of the queue *)




Lemma py_int_le_bound (m n : Z) (d : positive) :
  (0 < m)%Z -> (n <= Z.pos d)%Z -> (py_int (inject_Z m * (n # d)) <= m)%Z.
Proof.
  intros Hm Hn. unfold py_int. simpl. rewrite Pos.mul_1_l.
  destruct (Z_lt_le_dec (m * n) 0) as [Hneg|Hpos].
  - assert (m * n ÷ Z.pos d <= 0)%Z; [|lia].
    replace (m * n)%Z with (- (- (m * n)))%Z by lia.
    rewrite Z.quot_opp_l by lia.
    pose proof (Z.quot_pos (- (m * n)) (Z.pos d)). lia.
  - rewrite Z.quot_div_nonneg by lia.
    apply Z.div_le_upper_bound; [lia|].
    rewrite (Z.mul_comm (Z.pos d)). apply Z.mul_le_mono_nonneg_l; lia.
Qed.

(** X5. With a threshold of at most one, on a queue created with capacity
    [MAX_QUEUE_SIZE], the handler never waits in [q.put]: every run ends
    in a reply or in an HTTP error. *)
Theorem analyze_never_waits (E : env) (cfg : config) (req : AnalyzeRequest)
    (w : world) :
  q_maxsize (queue w) = MAX_QUEUE_SIZE cfg ->
  (BACKPRESSURE_THRESHOLD cfg <= 1)%Q ->
  forall payload, fst (analyze E cfg req w) <> AwaitingPut payload.
Proof.
  intros Hmax Hthr payload. unfold analyze.
  destruct (text_blob req =? "")%string; [done|].
  destruct (is_not_none _); [done|].
  destruct (backpressure_limit cfg <=? qsize (queue w))%Z eqn:Hq; [done|].
  simpl. destruct (full (queue w)) eqn:Hf; [|done].
  exfalso. unfold full in Hf. rewrite Hmax in Hf.
  destruct (MAX_QUEUE_SIZE cfg <=? 0)%Z eqn:Hm; [done|].
  apply Z.leb_le in Hf. apply Z.leb_gt in Hq, Hm.
  unfold backpressure_limit in Hq.
  destruct (BACKPRESSURE_THRESHOLD cfg) as [n d].
  assert (n <= Z.pos d)%Z by (unfold Qle in Hthr; simpl in Hthr; lia).
  pose proof (py_int_le_bound (MAX_QUEUE_SIZE cfg) n d Hm H). lia.
Qed.

Lemma analyze_never_waits_witness :
  q_maxsize (queue one_waiting) = MAX_QUEUE_SIZE small_cfg /\
  (forall payload,
     fst (analyze E0 small_cfg req_TA one_waiting) <> AwaitingPut payload).
Proof.
  split; [reflexivity|].
  apply (analyze_never_waits E0 small_cfg req_TA one_waiting).
  - reflexivity.
  - unfold Qle. simpl. lia.
Defined.



(** ** A batch run always completes *)

Lemma framed_refl w : framed w w.
Proof. done. Qed.

Lemma framed_trans a b c : framed a b -> framed b c -> framed a c.
Proof. unfold framed. intros (?&?&?&?) (?&?&?&?). repeat split; congruence. Qed.

Lemma framed_now E : keeps framed (now E).
Proof. intros w. done. Qed.

Lemma framed_post E req : keeps framed (post_chat E req).
Proof. intros w. done. Qed.

Lemma framed_setitem k f : keeps framed (store_setitem k f).
Proof.
  intros w. pose proof (setitem_same_keys k f w) as Hd.
  unfold store_setitem in *. destruct (store w !! k); done.
Qed.

Lemma framed_element_loop E xs : keeps framed (for_each xs (write_batch_element E)).
Proof.
  apply keeps_for_each; [apply framed_refl | apply framed_trans|]. intros obj.
  apply keeps_write_batch_element;
    [apply framed_refl | apply framed_trans | apply framed_now|].
  intros k f _. apply framed_setitem.
Qed.

Lemma framed_fallback_loop E bs : keeps framed (for_each bs (fallback_item E)).
Proof.
  apply keeps_for_each; [apply framed_refl | apply framed_trans|]. intros b.
  apply keeps_fallback_item;
    [apply framed_refl | apply framed_trans | apply framed_now
    | apply framed_post|].
  intros k f _. apply framed_setitem.
Qed.

Lemma framed_error_loop e bs : keeps framed (for_each bs (mark_batch_error e)).
Proof.
  apply keeps_for_each; [apply framed_refl | apply framed_trans|]. intros b.
  apply keeps_mark_batch_error; [apply framed_trans|].
  intros k f _. apply framed_setitem.
Qed.

(** The three shapes of a batch run: the batch call failed, the response
    was an array of the batch length, or the per-item fallback ran. *)
Lemma process_batch_shape E batch w :
  exists body,
    process_batch E batch w
    = batch_handlers batch body (sent (batch_request batch) w) /\
    keeps framed body /\
    ((exists e, chat_completion E (length (outbound w)) (batch_request batch)
                = Raise e /\ body = raise e)
     \/ (exists xs, body = for_each xs (write_batch_element E))
     \/ body = for_each batch (fallback_item E)).
Proof.
  destruct (chat_completion E (length (outbound w)) (batch_request batch))
    as [content|e] eqn:Hc.
  - destruct (extract_returns (json_loads E) content) as (parsed & Hp).
    eexists. split; [apply (process_batch_replied E batch w content parsed Hc Hp)|].
    destruct (is_list_of_length parsed (length batch)).
    + split; [apply framed_element_loop|]. right; left. by eexists.
    + split; [apply framed_fallback_loop|]. by right; right.
  - exists (raise e). split; [by apply process_batch_raised|].
    split; [intros w0; apply framed_refl|]. left. by exists e.
Qed.

Lemma error_loop_returns e bs w :
  (forall b, b ∈ bs -> is_Some (store w !! i_id b)) ->
  exists w', for_each bs (mark_batch_error e) w = (Return tt, w').
Proof.
  revert w. induction bs as [|b bs IH]; intros w Hin; [by eexists|].
  rewrite for_each_cons, mark_batch_error_run.
  destruct (Hin b ltac:(left)) as [r Hr]. rewrite Hr.
  apply IH. intros b' Hb'. simpl.
  destruct (decide (i_id b' = i_id b)) as [->|Hne].
  - rewrite lookup_insert_eq. done.
  - rewrite !lookup_insert_ne by done. apply Hin. by right.
Qed.

Lemma ack_loop {A} (xs : list A) w :
  (length xs <= q_unfinished (queue w))%nat ->
  exists w',
    for_each xs (fun _ => task_done) w = (Return tt, w') /\
    q_items (queue w') = q_items (queue w) /\
    (q_unfinished (queue w') + length xs = q_unfinished (queue w))%nat /\
    q_maxsize (queue w') = q_maxsize (queue w) /\
    store w' = store w /\ cache w' = cache w /\ outbound w' = outbound w /\
    drawn w' = drawn w.
Proof.
  revert w. induction xs as [|x xs IH]; intros w Hle; simpl in *.
  { exists w. repeat split; lia. }
  unfold bind, task_done at 1.
  destruct (q_unfinished (queue w)) as [|n] eqn:Hn; [lia|].
  destruct (IH (with_queue (fun q => {| q_items := q_items q; q_unfinished := n;
                                        q_maxsize := q_maxsize q |}) w))
    as (w' & Hrun & Hi & Hu & Hm & Hs & Hc & Ho & Hd); [simpl; lia|].
  exists w'. split; [exact Hrun|]. simpl in *. repeat split; try done. lia.
Qed.

Lemma in_store_dom (w w' : world) k :
  dom (store w') = dom (store w) ->
  is_Some (store w !! k) -> is_Some (store w' !! k).
Proof. intros Hd Hk. apply elem_of_dom. rewrite Hd. by apply elem_of_dom. Qed.

Lemma process_batch_returns (E : env) (batch : list item) (w : world) :
  (forall b, b ∈ batch -> is_Some (store w !! i_id b)) ->
  (length batch <= q_unfinished (queue w))%nat ->
  exists w',
    process_batch E batch w = (Return tt, w') /\
    q_items (queue w') = q_items (queue w) /\
    (q_unfinished (queue w') + length batch = q_unfinished (queue w))%nat /\
    dom (store w') = dom (store w) /\ cache w' = cache w /\ drawn w' = drawn w.
Proof.
  intros Hin Hle.
  destruct (process_batch_shape E batch w) as (body & -> & Hbody & _).
  unfold batch_handlers, try_finally, try_except.
  set (w1 := sent (batch_request batch) w).
  pose proof (Hbody w1) as Hf.
  destruct (body w1) as [[[]|e] w2]; simpl in Hf.
  - destruct Hf as (Hq & Hd & Hc & Hdr).
    destruct (ack_loop batch w2) as (w' & -> & Hi & Hu & _ & Hs & Hc' & _ & Hd');
      [by rewrite Hq|].
    exists w'. split; [done|]. rewrite Hq in Hi, Hu.
    repeat split; [exact Hi | exact Hu | by rewrite Hs | by rewrite Hc'
                  | by rewrite Hd'].
  - destruct Hf as (Hq & Hd & Hc & Hdr).
    destruct (error_loop_returns e batch w2) as (w3 & Hrun).
    { intros b Hb. apply (in_store_dom w1 w2); [done|]. by apply Hin. }
    pose proof (framed_error_loop e batch w2) as Hf3. rewrite Hrun in *. simpl in Hf3.
    destruct Hf3 as (Hq3 & Hd3 & Hc3 & Hdr3).
    destruct (ack_loop batch w3) as (w' & -> & Hi & Hu & _ & Hs & Hc' & _ & Hd');
      [by rewrite Hq3, Hq|].
    exists w'. split; [done|]. rewrite Hq3, Hq in Hi, Hu.
    repeat split; [exact Hi | exact Hu | by rewrite Hs, Hd3
                  | by rewrite Hc', Hc3 | by rewrite Hd', Hdr3].
Qed.

(** X7. A batch run on items that have their records always returns: no
    answer of the LLM, and no failure of it, makes the worker raise. The
    run acknowledges every item of the batch exactly once on the queue,
    leaves the waiting items, the cache and the set of request ids as
    they were. *)
Theorem process_batch_completes (E : env) (batch : list item) (w : world) :
  (forall b, b ∈ batch -> is_Some (store w !! i_id b)) ->
  (length batch <= q_unfinished (queue w))%nat ->
  exists w',
    process_batch E batch w = (Return tt, w') /\
    q_items (queue w') = q_items (queue w) /\
    (q_unfinished (queue w') + length batch = q_unfinished (queue w))%nat /\
    dom (store w') = dom (store w) /\ cache w' = cache w /\ drawn w' = drawn w.
Proof.
  intros Hin Hle.
  destruct (process_batch_returns E batch w Hin Hle) as (w' & Hrun & Hrest).
  exists w'. split; [exact Hrun | exact Hrest].
Qed.

Lemma process_batch_completes_witness :
  let E := scenario_env digest_stub [Return (dq "[{'id':'r0'},5]")] in
  let w := two_waiting E in
  exists w',
    process_batch E (q_items (queue w)) w = (Return tt, w') /\
    q_items (queue w') = q_items (queue w) /\
    (q_unfinished (queue w') + 2 = q_unfinished (queue w))%nat /\
    dom (store w') = dom (store w) /\ cache w' = cache w /\ drawn w' = drawn w.
Proof.
  intros E w.
  apply (process_batch_completes E (q_items (queue w)) w).
  - intros b Hb. vm_compute in Hb.
    apply elem_of_cons in Hb as [Hb|Hb]; [subst b; by eexists|].
    apply elem_of_cons in Hb as [Hb|Hb]; [subst b; by eexists|].
    by apply elem_of_nil in Hb.
  - vm_compute. lia.
Defined.

(** ** Batches are taken from the head of the queue *)

Lemma collect_batch_split cfg extra q batch q' :
  collect_batch cfg extra q = Some (batch, q') ->
  q_items q = (batch ++ q_items q')%list /\
  q_unfinished q' = q_unfinished q /\ q_maxsize q' = q_maxsize q.
Proof.
  unfold collect_batch. destruct (q_items q) as [|first rest]; [done|].
  intros [= <- <-]. simpl. by rewrite take_drop.
Qed.



(** ** What holds in every state reached from startup *)

Lemma analyze_effect E cfg req w :
  let w' := snd (analyze E cfg req w) in
  let rid := uuid4_hex E (drawn w) in
  w' = w
  \/ (exists r, store w' = <[rid := r]> (store w) /\ queue w' = queue w /\
        cache w' = cache w /\ drawn w' = S (drawn w))
  \/ (exists r payload,
        store w' = <[rid := r]> (store w) /\
        q_items (queue w') = (q_items (queue w) ++ [payload])%list /\
        i_id payload = rid /\
        q_unfinished (queue w') = S (q_unfinished (queue w)) /\
        q_maxsize (queue w') = q_maxsize (queue w) /\
        cache w' = cache w /\ drawn w' = S (drawn w)).
Proof.
  unfold analyze.
  destruct (text_blob req =? "")%string; [by left|].
  destruct (is_not_none _); [right; left; by eexists|].
  destruct (backpressure_limit cfg <=? qsize (queue w))%Z; [by left|].
  simpl. destruct (full (queue w)); simpl.
  - right; left. by eexists.
  - right; right. eexists _, _. done.
Qed.

Lemma worker_iteration_effect E cfg extra w o w' :
  well_formed w ->
  worker_iteration E cfg extra w = Some (o, w') ->
  o = Return tt /\
  exists batch,
    q_items (queue w) = (batch ++ q_items (queue w'))%list /\
    (q_unfinished (queue w') + length batch = q_unfinished (queue w))%nat /\
    q_maxsize (queue w') = q_maxsize (queue w) /\
    dom (store w') = dom (store w) /\ cache w' = cache w /\ drawn w' = drawn w.
Proof.
  intros [Hin Hun]. unfold worker_iteration.
  destruct (collect_batch cfg extra (queue w)) as [[batch q']|] eqn:Hcol; [|done].
  destruct (collect_batch_split cfg extra _ _ _ Hcol) as (Hq & Hu & Hm).
  intros [= Hrun].
  destruct (process_batch_returns E batch (with_queue (fun _ => q') w))
    as (w2 & Hrun2 & Hi & Hu2 & Hd & Hc & Hdr).
  { intros b Hb. simpl. apply Hin. rewrite Hq. apply elem_of_app. by left. }
  { simpl. rewrite Hu, Hun, Hq, length_app. lia. }
  rewrite Hrun2 in Hrun. injection Hrun as <- <-.
  split; [done|]. exists batch. simpl in *.
  rewrite Hi. repeat split; try done; try congruence.
  destruct w2 as [s2 [i2 u2 m2] c2 r2 o2 d2]. simpl in *.
  pose proof (keeps_process_batch (fun a b => q_maxsize (queue b) = q_maxsize (queue a))
                ltac:(done) ltac:(intros; congruence) E ltac:(done) ltac:(done)) as Hk.
  specialize (Hk ltac:(intros w0; unfold task_done;
                        destruct (q_unfinished (queue w0)); done)).
  specialize (Hk ltac:(intros k f _ w0; unfold store_setitem;
                        destruct (store w0 !! k); done)).
  specialize (Hk batch (with_queue (fun _ => q') w)). rewrite Hrun2 in Hk.
  simpl in Hk. congruence.
Qed.

Lemma well_formed_analyze E cfg req w :
  well_formed w -> well_formed (snd (analyze E cfg req w)).
Proof.
  intros [Hin Hun].
  destruct (analyze_effect E cfg req w)
    as [-> | [(r & Hs & Hq & _) | (r & p & Hs & Hq & Hp & Hu & _)]]; [done| |].
  - split; rewrite Hq; [|done]. intros it Hit. rewrite Hs.
    destruct (decide (uuid4_hex E (drawn w) = i_id it)) as [->|Hne].
    + by rewrite lookup_insert_eq.
    + rewrite lookup_insert_ne by done. by apply Hin.
  - split.
    + intros it Hit. rewrite Hq in Hit. rewrite Hs.
      apply elem_of_app in Hit as [Hit | Hit%list_elem_of_singleton].
      * destruct (decide (uuid4_hex E (drawn w) = i_id it)) as [->|Hne].
        -- by rewrite lookup_insert_eq.
        -- rewrite lookup_insert_ne by done. by apply Hin.
      * subst it. rewrite Hp, lookup_insert_eq. done.
    + rewrite Hu, Hq, length_app, Hun. simpl. lia.
Qed.

Lemma well_formed_worker E cfg extra w o w' :
  well_formed w ->
  worker_iteration E cfg extra w = Some (o, w') -> well_formed w'.
Proof.
  intros Hwf Hit. pose proof Hwf as [Hin Hun].
  destruct (worker_iteration_effect E cfg extra w o w' Hwf Hit)
    as (_ & batch & Hq & Hu & _ & Hd & _).
  split.
  - intros it Hi. apply (in_store_dom w w' _ Hd). apply Hin.
    rewrite Hq. apply elem_of_app. by right.
  - rewrite Hq, length_app in Hun. lia.
Qed.

Lemma reachable_well_formed E cfg w : reachable E cfg w -> well_formed w.
Proof.
  induction 1 as [| req w _ IH | extra o w w' _ IH Hit].
  - split; [intros it Hit; by apply elem_of_nil in Hit | done].
  - by apply well_formed_analyze.
  - by apply (well_formed_worker E cfg extra w o w').
Qed.


Lemma two_waiting_reachable E : reachable E default_cfg (two_waiting E).
Proof. unfold two_waiting. do 2 apply reach_analyze. apply reach_startup. Qed.


Lemma reachable_cache_empty E cfg w : reachable E cfg w -> cache w = ∅.
Proof.
  induction 1 as [| req w _ IH | extra o w w' Hr IH Hit]; [done| |].
  - destruct (analyze_effect E cfg req w)
      as [-> | [(r & _ & _ & -> & _) | (r & p & _ & _ & _ & _ & _ & -> & _)]]; done.
  - pose proof (reachable_well_formed E cfg w Hr) as Hwf.
    destruct (worker_iteration_effect E cfg extra w o w' Hwf Hit)
      as (_ & batch & _ & _ & _ & _ & -> & _). done.
Qed.

(** X10. Nothing in the program writes the cache: in every state reached
    from startup by handler runs and worker iterations the cache is empty,
    so no request is ever answered [cached]; every request with a
    non-empty text is either queued (or waits for room) or rejected with
    429. *)
Theorem cache_never_hit (E : env) (cfg : config) (w : world) (req : AnalyzeRequest) :
  reachable E cfg w ->
  cache w = ∅ /\
  (forall rid,
     fst (analyze E cfg req w)
     <> Respond (JObj [("request_id", JStr rid); ("status", JStr "done");
                       ("cached", JBool true)])) /\
  (text_blob req <> "" ->
   (exists rid, fst (analyze E cfg req w)
                = Respond (JObj [("request_id", JStr rid); ("status", JStr "queued")]))
   \/ (exists payload, fst (analyze E cfg req w) = AwaitingPut payload)
   \/ fst (analyze E cfg req w)
      = HTTPException 429 "Server overloaded — try again later").
Proof.
  intros Hr. pose proof (reachable_cache_empty E cfg w Hr) as Hc.
  split; [done|]. unfold analyze, cache_get. rewrite Hc, lookup_empty. simpl.
  destruct (String.eqb_spec (text_blob req) "") as [Hb|Hb]; simpl.
  - split; [done|]. intros; done.
  - destruct (backpressure_limit cfg <=? qsize (queue w))%Z; simpl.
    + split; [done|]. intros _. by right; right.
    + destruct (full (queue w)); simpl.
      * split; [done|]. intros _. right; left. by eexists.
      * split; [done|]. intros _. left. by eexists.
Qed.

(** After a request was admitted and resolved by a worker, the same
    request is queued again. *)
Lemma cache_never_hit_witness :
  let E := scenario_env digest_stub [Return reply_r0] in
  let w1 := snd (analyze E default_cfg req_TA (startup default_cfg)) in
  let w2 := snd (process_batch E (q_items (queue w1))
                   (with_queue (fun q => {| q_items := [];
                                            q_unfinished := q_unfinished q;
                                            q_maxsize := q_maxsize q |}) w1)) in
  cache w2 = ∅ /\
  (forall rid,
     fst (analyze E default_cfg req_TA w2)
     <> Respond (JObj [("request_id", JStr rid); ("status", JStr "done");
                       ("cached", JBool true)])) /\
  (text_blob req_TA <> "" ->
   (exists rid, fst (analyze E default_cfg req_TA w2)
                = Respond (JObj [("request_id", JStr rid); ("status", JStr "queued")]))
   \/ (exists payload, fst (analyze E default_cfg req_TA w2) = AwaitingPut payload)
   \/ fst (analyze E default_cfg req_TA w2)
      = HTTPException 429 "Server overloaded — try again later").
Proof.
  intros E w1 w2.
  apply (cache_never_hit E default_cfg w2 req_TA).
  apply (reach_worker E default_cfg 0 (Return tt) w1 w2).
  - apply reach_analyze, reach_startup.
  - vm_compute. reflexivity.
Defined.

(** ** Request ids *)

Lemma ids_drawn_analyze E cfg req w :
  ids_drawn E w -> ids_drawn E (snd (analyze E cfg req w)).
Proof.
  intros [Hst (ns & Hns & Hnd & Hlt)].
  assert (Hins : forall r k, is_Some (<[uuid4_hex E (drawn w) := r]> (store w) !! k) ->
                 exists n, (n < S (drawn w))%nat /\ k = uuid4_hex E n).
  { intros r k Hk. destruct (decide (uuid4_hex E (drawn w) = k)) as [<-|Hne].
    - exists (drawn w). split; [lia | done].
    - rewrite lookup_insert_ne in Hk by done.
      destruct (Hst k Hk) as (n & Hn & ->). exists n. split; [lia | done]. }
  destruct (analyze_effect E cfg req w)
    as [-> | [(r & Hs & Hq & _ & Hd) | (r & p & Hs & Hq & Hp & _ & _ & _ & Hd)]].
  - split; [done | by exists ns].
  - split.
    + intros k Hk. rewrite Hs in Hk. rewrite Hd. by apply (Hins r).
    + exists ns. rewrite Hq, Hd. repeat split; try done.
      intros n Hn. specialize (Hlt n Hn). lia.
  - split.
    + intros k Hk. rewrite Hs in Hk. rewrite Hd. by apply (Hins r).
    + exists (ns ++ [drawn w])%list. rewrite Hq, Hd, !map_app, Hns. simpl. rewrite Hp.
      repeat split; try done.
      * apply NoDup_app. repeat split; [done | | apply NoDup_singleton].
        intros n Hn Hn'%list_elem_of_singleton. specialize (Hlt n Hn). lia.
      * intros n [Hn | Hn%list_elem_of_singleton]%elem_of_app;
          [specialize (Hlt n Hn)|]; lia.
Qed.

Lemma ids_drawn_worker E cfg extra w o w' :
  well_formed w -> ids_drawn E w ->
  worker_iteration E cfg extra w = Some (o, w') -> ids_drawn E w'.
Proof.
  intros Hwf [Hst (ns & Hns & Hnd & Hlt)] Hit.
  destruct (worker_iteration_effect E cfg extra w o w' Hwf Hit)
    as (_ & batch & Hq & _ & _ & Hd & _ & Hdr).
  split.
  - intros k Hk. rewrite Hdr. apply Hst. by apply (in_store_dom w' w).
  - exists (drop (length batch) ns). rewrite Hdr.
    rewrite Hq, map_app in Hns. split; [|split].
    + rewrite <- List.skipn_map, <- Hns.
      rewrite drop_app_length'; [done|]. by rewrite length_map.
    + apply (NoDup_app (take (length batch) ns)). by rewrite take_drop.
    + intros n Hn. apply Hlt. by apply (subseteq_drop (length batch) ns).
Qed.

Lemma reachable_ids_drawn E cfg w : reachable E cfg w -> ids_drawn E w.
Proof.
  induction 1 as [| req w _ IH | extra o w w' Hr IH Hit].
  - split.
    + intros k [r Hk]. simpl in Hk. by rewrite lookup_empty in Hk.
    + exists []. repeat split; [constructor|]. intros n Hn. by apply elem_of_nil in Hn.
  - by apply ids_drawn_analyze.
  - apply (ids_drawn_worker E cfg extra w o w'); try done.
    by apply (reachable_well_formed E cfg).
Qed.

(** X11. As long as the id generator has not repeated itself, request ids
    are unique: in every state reached from startup the waiting items have
    pairwise distinct ids, and the id the next admission will draw is not
    yet a key of the store, so admission never overwrites a record. *)
Theorem request_ids_unique (E : env) (cfg : config) (w : world) :
  reachable E cfg w ->
  no_repeats E (S (drawn w)) ->
  NoDup (map i_id (q_items (queue w))) /\
  store w !! uuid4_hex E (drawn w) = None.
Proof.
  intros Hr Hno.
  destruct (reachable_ids_drawn E cfg w Hr) as [Hst (ns & Hns & Hnd & Hlt)].
  split.
  - rewrite Hns. change (map (uuid4_hex E) ns) with (uuid4_hex E <$> ns).
    apply NoDup_fmap_2_strong; [|done].
    intros i j Hi Hj Heq.
    pose proof (Hlt i Hi) as Hil. pose proof (Hlt j Hj) as Hjl.
    destruct (lt_eq_lt_dec i j) as [[Hij | ->] | Hji]; [|done|].
    + exfalso. apply (Hno i j); [lia | lia | done].
    + exfalso. apply (Hno j i); [lia | lia | done].
  - destruct (store w !! uuid4_hex E (drawn w)) as [r|] eqn:Hk; [|done].
    destruct (Hst _ (ex_intro _ r Hk)) as (n & Hn & Heq).
    exfalso. apply (Hno n (drawn w)); [lia | lia | done].
Qed.

Lemma request_ids_unique_witness :
  NoDup (map i_id (q_items (queue (two_waiting E0)))) /\
  store (two_waiting E0) !! uuid4_hex E0 (drawn (two_waiting E0)) = None.
Proof.
  apply (request_ids_unique E0 default_cfg (two_waiting E0)).
  - apply two_waiting_reachable.
  - intros i j Hij Hj. change (drawn (two_waiting E0)) with 2%nat in Hj.
    destruct j as [|[|[|j]]]; destruct i as [|[|[|i]]]; try lia; discriminate.
Defined.

(** ** Failures of the LLM *)

Lemma fallback_failed_idem e r :
  fallback_failed e (fallback_failed e r) = fallback_failed e r.
Proof. reflexivity. Qed.

Lemma error_loop_marks e bs w :
  (forall b, b ∈ bs -> is_Some (store w !! i_id b)) ->
  let w' := snd (for_each bs (mark_batch_error e) w) in
  (forall k, k ∉ map i_id bs -> store w' !! k = store w !! k) /\
  (forall b r, b ∈ bs -> store w !! i_id b = Some r ->
     store w' !! i_id b = Some (fallback_failed e r)).
Proof.
  revert w. induction bs as [|b0 bs IH]; intros w Hin; cbv zeta.
  { simpl. split; [done|]. intros b r Hb. by apply elem_of_nil in Hb. }
  rewrite for_each_cons, mark_batch_error_run.
  destruct (Hin b0 ltac:(left)) as [r0 Hr0]. rewrite Hr0.
  set (w1 := with_store _ (with_store _ w)).
  assert (H1 : store w1 !! i_id b0 = Some (fallback_failed e r0)).
  { subst w1. simpl. by rewrite lookup_insert_eq. }
  assert (H1' : forall k, k <> i_id b0 -> store w1 !! k = store w !! k).
  { intros k Hk. subst w1. simpl. by rewrite !lookup_insert_ne. }
  destruct (IH w1) as [Hoth Hmark]; cbv zeta in *.
  { intros b Hb. destruct (decide (i_id b = i_id b0)) as [->|Hne].
    - by rewrite H1.
    - rewrite H1' by done. apply Hin. by right. }
  split.
  - intros k Hk. apply not_elem_of_cons in Hk as [Hne Hk].
    rewrite Hoth by done. by apply H1'.
  - intros b r Hb Hr.
    destruct (decide (i_id b ∈ map i_id bs)) as [Hmem|Hnot].
    + apply list_elem_of_fmap in Hmem as (b' & Heq & Hb').
      rewrite Heq. destruct (decide (i_id b' = i_id b0)) as [Heq0|Hne].
      * rewrite Heq0 in *. rewrite Heq, Hr0 in Hr. injection Hr as <-.
        rewrite <- Heq0. rewrite (Hmark b' (fallback_failed e r0) Hb'); [done|].
        by rewrite Heq0.
      * apply Hmark; [done|]. rewrite H1' by done. by rewrite <- Heq.
    + rewrite Hoth by done.
      apply elem_of_cons in Hb as [->|Hb].
      * rewrite Hr0 in Hr. by injection Hr as <-.
      * exfalso. apply Hnot. apply list_elem_of_fmap. by exists b.
Qed.

(** X12. When the batch call fails, every item of the batch is marked
    error with the message of the failure, and nothing else is changed:
    the result, the admission time and the [finished_at] of each record
    stay as they were, the records of other requests are untouched, and
    no per-item call is attempted. *)
Theorem batch_failure_marks_all (E : env) (batch : list item) (w : world)
    (e : exn) :
  chat_completion E (length (outbound w)) (batch_request batch) = Raise e ->
  (forall b, b ∈ batch -> is_Some (store w !! i_id b)) ->
  let w' := snd (process_batch E batch w) in
  (forall b r, b ∈ batch -> store w !! i_id b = Some r ->
     exists r', store w' !! i_id b = Some r' /\
       status r' = Error /\ error r' = Some (str_of_exn e) /\
       finished_at r' = finished_at r /\ result r' = result r /\
       queued_at r' = queued_at r)
  /\ (forall k, k ∉ map i_id batch -> store w' !! k = store w !! k)
  /\ outbound w' = (outbound w ++ [batch_request batch])%list.
Proof.
  intros Hc Hin w'. subst w'. rewrite (process_batch_raised E batch w e Hc).
  rewrite batch_handlers_store, batch_handlers_outbound. simpl.
  destruct (error_loop_marks e batch (sent (batch_request batch) w) Hin)
    as [Hoth Hmark].
  split; [|split; [exact Hoth | done]].
  intros b r Hb Hr. exists (fallback_failed e r). split; [by apply Hmark|]. done.
Qed.

Lemma batch_failure_marks_all_witness :
  let E := scenario_env digest_stub [Raise (UpstreamError "503 Service Unavailable")] in
  let w := two_waiting E in
  let w' := snd (process_batch E (q_items (queue w)) w) in
  (forall b r, b ∈ q_items (queue w) -> store w !! i_id b = Some r ->
     exists r', store w' !! i_id b = Some r' /\
       status r' = Error /\ error r' = Some "503 Service Unavailable" /\
       finished_at r' = finished_at r /\ result r' = result r /\
       queued_at r' = queued_at r)
  /\ (forall k, k ∉ map i_id (q_items (queue w)) -> store w' !! k = store w !! k)
  /\ outbound w' = (outbound w ++ [batch_request (q_items (queue w))])%list.
Proof.
  intros E w w'.
  apply (batch_failure_marks_all E (q_items (queue w)) w
           (UpstreamError "503 Service Unavailable")).
  - reflexivity.
  - intros b Hb. vm_compute in Hb.
    apply elem_of_cons in Hb as [Hb|Hb]; [subst b; by eexists|].
    apply elem_of_cons in Hb as [Hb|Hb]; [subst b; by eexists|].
    by apply elem_of_nil in Hb.
Defined.

Lemma fallback_loop_failed E bs w :
  (forall b, b ∈ bs -> is_Some (store w !! i_id b)) ->
  NoDup (map i_id bs) ->
  forall j b e, bs !! j = Some b ->
    chat_completion E (length (outbound w) + j) (single_request b) = Raise e ->
    exists r, store w !! i_id b = Some r /\
      store (snd (for_each bs (fallback_item E) w)) !! i_id b
      = Some (fallback_failed e r).
Proof.
  revert w. induction bs as [|b0 bs IH]; intros w Hin Hnd j b e Hj Hc; [done|].
  destruct (Hin b0 ltac:(left)) as [r0 Hr0].
  destruct (fallback_item_run E b0 r0 w Hr0) as (w1 & Hrun & Hout1 & Hoth1 & _ & Hfail1).
  assert (Hin1 : forall b', b' ∈ bs -> is_Some (store w1 !! i_id b')).
  { intros b' Hb'. pose proof (framed_fallback_loop E [b0] w) as (_ & Hd & _).
    simpl in Hd. unfold bind in Hd. rewrite Hrun in Hd. simpl in Hd.
    apply (in_store_dom w w1 _ Hd). apply Hin. by right. }
  apply NoDup_cons in Hnd as [Hnotin Hnd].
  rewrite for_each_cons, Hrun.
  destruct j as [|j]; simpl in Hj.
  - injection Hj as <-. rewrite Nat.add_0_r in Hc.
    exists r0. split; [done|].
    destruct (fallback_loop E bs w1 Hin1) as (w' & -> & _ & Hoth & _). simpl.
    rewrite Hoth by done. by apply Hfail1.
  - destruct (IH w1 Hin1 Hnd j b e Hj) as (r & Hr & Hw').
    { rewrite Hout1, length_app. simpl.
      replace (length (outbound w) + 1 + j)%nat with (length (outbound w) + S j)%nat by lia.
      done. }
    exists r. split; [|done]. rewrite <- Hr. symmetry. apply Hoth1.
    intros Heq. apply Hnotin. rewrite <- Heq.
    apply list_elem_of_fmap. exists b. split; [done|].
    by apply list_elem_of_lookup_2 in Hj.
Qed.

(** X13. In the per-item fallback a failing single call fails its own item
    only: that item's record is marked error with the message of the
    failure, keeping its result, admission time and [finished_at], and
    the loop goes on to the remaining items. *)
Theorem fallback_failure_is_per_item (E : env) (batch : list item) (w : world)
    (content : string) (parsed : json) (j : nat) (b : item) (e : exn) :
  chat_completion E (length (outbound w)) (batch_request batch) = Return content ->
  extract_json_from_text (json_loads E) content = Return parsed ->
  is_list_of_length parsed (length batch) = false ->
  (forall b', b' ∈ batch -> is_Some (store w !! i_id b')) ->
  NoDup (map i_id batch) ->
  batch !! j = Some b ->
  chat_completion E (S (length (outbound w)) + j) (single_request b) = Raise e ->
  let w' := snd (process_batch E batch w) in
  (exists r r',
     store w !! i_id b = Some r /\ store w' !! i_id b = Some r' /\
     status r' = Error /\ error r' = Some (str_of_exn e) /\
     finished_at r' = finished_at r /\ result r' = result r /\
     queued_at r' = queued_at r)
  /\ outbound w'
     = (outbound w ++ batch_request batch :: map single_request batch)%list.
Proof.
  intros Hc Hp Hno Hin Hnd Hj Hfail w'. subst w'.
  rewrite (process_batch_replied E batch w content parsed Hc Hp), Hno.
  rewrite batch_handlers_store, batch_handlers_outbound.
  destruct (fallback_loop E batch (sent (batch_request batch) w) Hin)
    as (w2 & Hrun & Hout & _).
  destruct (fallback_loop_failed E batch (sent (batch_request batch) w) Hin Hnd j b e Hj)
    as (r & Hr & Hw2).
  { simpl. rewrite length_app. simpl.
    replace (length (outbound w) + 1 + j)%nat with (S (length (outbound w)) + j)%nat by lia.
    done. }
  rewrite Hrun in *. simpl in *. split.
  - exists r, (fallback_failed e r). done.
  - rewrite Hout. simpl. by rewrite <- app_assoc.
Qed.

Lemma fallback_failure_is_per_item_witness :
  let E := scenario_env digest_stub
             [Return "I cannot comply."; Raise (UpstreamError "timed out");
              Return (dq "{'summary':'s'}")] in
  let w := two_waiting E in
  let batch := q_items (queue w) in
  let w' := snd (process_batch E batch w) in
  (exists r r',
     store w !! "r0" = Some r /\ store w' !! "r0" = Some r' /\
     status r' = Error /\ error r' = Some "timed out" /\
     finished_at r' = finished_at r /\ result r' = result r /\
     queued_at r' = queued_at r)
  /\ outbound w'
     = (outbound w ++ batch_request batch :: map single_request batch)%list.
Proof.
  intros E w batch w'.
  refine (fallback_failure_is_per_item E batch w "I cannot comply." JNull 0
            {| i_id := "r0"; i_text := text_blob req_TA; i_submitted_at := 100%float;
               i_cache_key := "analyze:" ++ text_blob req_TA |}
            (UpstreamError "timed out") _ _ _ _ _ _ _).
  - reflexivity.
  - reflexivity.
  - reflexivity.
  - intros b' Hb'. vm_compute in Hb'.
    apply elem_of_cons in Hb' as [Hb'|Hb']; [subst b'; by eexists|].
    apply elem_of_cons in Hb' as [Hb'|Hb']; [subst b'; by eexists|].
    by apply elem_of_nil in Hb'.
  - vm_compute. apply NoDup_cons. split; [|apply NoDup_singleton].
    intros H. apply list_elem_of_singleton in H. discriminate.
  - reflexivity.
  - reflexivity.
Defined.

(** ** Requests sent and acknowledgements made by a batch run *)

Lemma fallback_item_outbound E b w :
  outbound (snd (fallback_item E b w)) = (outbound w ++ [single_request b])%list.
Proof.
  destruct (store w !! i_id b) as [r|] eqn:Hk.
  - destruct (fallback_item_run E b r w Hk) as (w' & Hrun & Hout & _).
    by rewrite Hrun.
  - unfold fallback_item, try_except, bind, call_groq_single, post_chat, lift.
    fold (single_request b).
    destruct (chat_completion E (length (outbound w)) (single_request b)) as [out|e].
    + destruct (extract_returns (json_loads E) out) as (v & ->).
      unfold store_setitem. simpl. rewrite Hk. simpl. rewrite Hk. done.
    + unfold store_setitem. simpl. rewrite Hk. done.
Qed.

Lemma fallback_loop_outbound E bs w :
  exists n, (n <= length bs)%nat /\
    outbound (snd (for_each bs (fallback_item E) w))
    = (outbound w ++ map single_request (take n bs))%list.
Proof.
  revert w. induction bs as [|b bs IH]; intros w.
  { exists 0%nat. simpl. by rewrite app_nil_r. }
  rewrite for_each_cons. pose proof (fallback_item_outbound E b w) as Hb.
  destruct (fallback_item E b w) as [[[]|e] w1]; simpl in Hb.
  - destruct (IH w1) as (n & Hn & Hout). exists (S n). split; [simpl; lia|].
    rewrite Hout, Hb. simpl. by rewrite <- app_assoc.
  - exists 1%nat. split; [simpl; lia|]. simpl. done.
Qed.

(** X14. A batch run sends the batch request first and then at most one
    single request per item, in the order of the batch: never more than
    one plus the batch size requests, whatever the LLM answers and
    whatever the store holds. *)
Theorem process_batch_requests (E : env) (batch : list item) (w : world) :
  exists n, (n <= length batch)%nat /\
    outbound (snd (process_batch E batch w))
    = (outbound w ++ batch_request batch :: map single_request (take n batch))%list.
Proof.
  destruct (process_batch_shape E batch w)
    as (body & -> & _ & [(e & _ & ->) | [(xs & ->) | ->]]);
    rewrite batch_handlers_outbound.
  - exists 0%nat. split; [lia|]. by rewrite take_0.
  - exists 0%nat. split; [lia|]. by rewrite element_loop_outbound, take_0.
  - destruct (fallback_loop_outbound E batch (sent (batch_request batch) w))
      as (n & Hn & ->).
    exists n. split; [done|]. simpl. by rewrite <- app_assoc.
Qed.

Lemma queue_kept_setitem k f w : queue (snd (store_setitem k f w)) = queue w.
Proof. unfold store_setitem. destruct (store w !! k); done. Qed.

(** X15. The acknowledgements are made whatever happens: when at least the
    batch size of items is unacknowledged, a batch run lowers the count by
    exactly the batch size and leaves the waiting items alone, also when
    the LLM fails and also when the run ends in an exception because a
    record is missing. *)
Theorem process_batch_acknowledges (E : env) (batch : list item) (w : world) :
  (length batch <= q_unfinished (queue w))%nat ->
  let w' := snd (process_batch E batch w) in
  (q_unfinished (queue w') + length batch = q_unfinished (queue w))%nat /\
  q_items (queue w') = q_items (queue w) /\
  q_maxsize (queue w') = q_maxsize (queue w).
Proof.
  intros Hle w'. subst w'.
  destruct (process_batch_shape E batch w) as (body & -> & Hbody & _).
  unfold batch_handlers, try_finally.
  assert (Hk : keeps (fun a b : world => queue b = queue a)
                 (try_except body (fun e => for_each batch (mark_batch_error e)))).
  { apply keeps_try_except.
    - intros a b c H1 H2. congruence.
    - intros w0. by destruct (Hbody w0).
    - intros e w0. by destruct (framed_error_loop e batch w0). }
  specialize (Hk (sent (batch_request batch) w)).
  destruct (try_except body _ (sent (batch_request batch) w)) as [o w2].
  simpl in Hk.
  destruct (ack_loop batch w2) as (w3 & -> & Hi & Hu & Hm & _);
    [by rewrite Hk|].
  rewrite Hk in Hi, Hu, Hm. by destruct o.
Qed.

Lemma process_batch_acknowledges_witness :
  let E := scenario_env digest_stub [Return "I cannot comply."] in
  let w := two_waiting E in
  let batch := [{| i_id := "gone"; i_text := "t"; i_submitted_at := 100%float;
                   i_cache_key := "analyze:t" |}] in
  let w' := snd (process_batch E batch w) in
  (q_unfinished (queue w') + 1 = q_unfinished (queue w))%nat /\
  q_items (queue w') = q_items (queue w) /\
  q_maxsize (queue w') = q_maxsize (queue w).
Proof.
  intros E w batch w'.
  apply (process_batch_acknowledges E batch w). vm_compute. lia.
Defined.

(** ** [call_groq_batch] against lists of different lengths *)

Lemma batch_user_messages_short prompts ids :
  (length ids < length prompts)%nat ->
  batch_user_messages prompts ids = Raise (IndexError "list index out of range").
Proof.
  revert ids. induction prompts as [|p ps IH]; intros ids Hlt; simpl in *; [lia|].
  destruct ids as [|i ids]; [done|]. simpl in Hlt. rewrite IH by lia. done.
Qed.

Lemma batch_user_messages_enough prompts ids :
  (length prompts <= length ids)%nat ->
  exists ms, batch_user_messages prompts ids = Return ms /\
             length ms = length prompts /\
             map snd ms
             = map (fun '(i, t) => "ID:" ++ i ++ nl ++ t) (zip ids prompts).
Proof.
  revert ids. induction prompts as [|p ps IH]; intros ids Hle; simpl in *.
  { exists []. by destruct ids. }
  destruct ids as [|i ids]; simpl in *; [lia|].
  destruct (IH ids ltac:(lia)) as (ms & -> & Hlen & Hmap).
  eexists. split; [reflexivity|]. simpl. by rewrite Hlen, Hmap.
Qed.

(** X16. [call_groq_batch] needs an id for every prompt. With fewer ids
    than prompts it raises [IndexError] before anything is sent; with
    enough ids it sends exactly one request, made of the system message
    followed by one user message per prompt, each opening with the id
    of its position, and ids beyond the prompts are ignored. *)
Theorem call_groq_batch_lengths (E : env) (prompts ids : list string) (w : world) :
  ((length ids < length prompts)%nat ->
   call_groq_batch E prompts ids w
   = (Raise (IndexError "list index out of range"), w))
  /\ ((length prompts <= length ids)%nat ->
      exists req,
        call_groq_batch E prompts ids w
        = (match chat_completion E (length (outbound w)) req with
           | Return content => Return [content]
           | Raise e => Raise e
           end, sent req w) /\
        max_tokens req = 1600%Z /\
        map snd (messages req)
        = batch_system_msg
          :: map (fun '(i, t) => "ID:" ++ i ++ nl ++ t) (zip ids prompts)).
Proof.
  split; intros Hlen; unfold call_groq_batch, bind, lift.
  - by rewrite batch_user_messages_short.
  - destruct (batch_user_messages_enough prompts ids Hlen) as (ms & -> & _ & Hmap).
    exists {| messages := ("system", batch_system_msg) :: ms; max_tokens := 1600 |}.
    unfold post_chat, ret. split.
    + destruct (chat_completion E _ _); reflexivity.
    + simpl. by rewrite Hmap.
Qed.

Lemma call_groq_batch_lengths_witness :
  call_groq_batch E0 ["a"; "b"] ["r0"] (startup default_cfg)
  = (Raise (IndexError "list index out of range"), startup default_cfg)
  /\ exists req,
       call_groq_batch E0 ["a"] ["r0"; "r1"] (startup default_cfg)
       = (match chat_completion E0 (length (outbound (startup default_cfg))) req with
          | Return content => Return [content]
          | Raise e => Raise e
          end, sent req (startup default_cfg)) /\
       max_tokens req = 1600%Z /\
       map snd (messages req)
       = batch_system_msg
         :: map (fun '(i, t) => "ID:" ++ i ++ nl ++ t) (zip ["r0"; "r1"] ["a"]).
Proof.
  split.
  - apply (proj1 (call_groq_batch_lengths E0 ["a"; "b"] ["r0"] (startup default_cfg))).
    simpl. lia.
  - apply (proj2 (call_groq_batch_lengths E0 ["a"] ["r0"; "r1"] (startup default_cfg))).
    simpl. lia.
Defined.

(** ** Polling and readiness *)

(** X17. Submit, then poll: whenever the handler replies with a body, the
    [request_id] of the body is a key of the store, so [GET /result] on it
    answers with the record and never with 404, and the record agrees
    with the reply: queued with no [finished_at] after an accepted
    request, done with [finished_at] equal to [queued_at] after a cache
    hit. An id that is not a key of the store gives 404. *)
Theorem poll_after_submit (E : env) (cfg : config) (req : AnalyzeRequest)
    (w : world) (body : json) :
  fst (analyze E cfg req w) = Respond body ->
  let w' := snd (analyze E cfg req w) in
  (exists rid r,
     store w' !! rid = Some r /\
     get_result rid w' = Respond (record_dict r) /\
     ((body = JObj [("request_id", JStr rid); ("status", JStr "queued")] /\
       status r = Queued /\ finished_at r = None /\ result r = JNull)
      \/ (body = JObj [("request_id", JStr rid); ("status", JStr "done");
                       ("cached", JBool true)] /\
          status r = Done /\ finished_at r = Some (queued_at r) /\
          result r <> JNull)))
  /\ (forall k, store w' !! k = None ->
        get_result k w' = HTTPException 404 "Unknown request_id").
Proof.
  intros Hb w'. subst w'. split.
  - revert Hb. unfold analyze.
    destruct (text_blob req =? "")%string; [done|].
    destruct (is_not_none _) eqn:Hc.
    + simpl. intros [= <-]. eexists _, _. unfold get_result. simpl.
      rewrite lookup_insert_eq. split; [done|]. split; [done|]. right.
      repeat split. intros H. simpl in H. rewrite H in Hc. done.
    + destruct (backpressure_limit cfg <=? qsize (queue w))%Z; [done|].
      simpl. destruct (full (queue w)); [done|]. simpl.
      intros [= <-]. eexists _, _. unfold get_result. simpl.
      rewrite lookup_insert_eq. split; [done|]. split; [done|]. by left.
  - intros k Hk. unfold get_result. by rewrite Hk.
Qed.

Lemma poll_after_submit_witness :
  let w' := snd (analyze E0 default_cfg req_hello (startup default_cfg)) in
  (exists rid r,
     store w' !! rid = Some r /\
     get_result rid w' = Respond (record_dict r) /\
     ((JObj [("request_id", JStr "r0"); ("status", JStr "queued")]
       = JObj [("request_id", JStr rid); ("status", JStr "queued")] /\
       status r = Queued /\ finished_at r = None /\ result r = JNull)
      \/ (JObj [("request_id", JStr "r0"); ("status", JStr "queued")]
          = JObj [("request_id", JStr rid); ("status", JStr "done");
                  ("cached", JBool true)] /\
          status r = Done /\ finished_at r = Some (queued_at r) /\
          result r <> JNull)))
  /\ (forall k, store w' !! k = None ->
        get_result k w' = HTTPException 404 "Unknown request_id").
Proof.
  apply (poll_after_submit E0 default_cfg req_hello (startup default_cfg)).
  reflexivity.
Defined.

Lemma count_true_le alive : (count_true alive <= length alive)%nat.
Proof. induction alive as [|[] rest IH]; simpl; lia. Qed.

Lemma count_true_all alive :
  forallb (fun b => b) alive = true <-> count_true alive = length alive.
Proof.
  induction alive as [|[] rest IH]; simpl; [done|exact (conj (fun H => f_equal S (proj1 IH H)) (fun H => proj2 IH (eq_add_S _ _ H)))|].
  pose proof (count_true_le rest). split; [done | lia].
Qed.

(** X18. [GET /ready] answers ready exactly when there is at least one
    worker task and none of them has finished; otherwise it answers not
    ready, with the reason [no-workers] when there is no task, and with
    the number of live tasks, smaller than the total, when some have
    finished. *)
Theorem ready_iff_all_alive (alive : list bool) :
  (dict_get "ready" (match ready alive with JObj kvs => kvs | _ => [] end)
   = JBool true
   <-> alive <> [] /\ forall b, b ∈ alive -> b = true)
  /\ (alive = [] ->
      ready alive = JObj [("ready", JBool false); ("reason", JStr "no-workers")])
  /\ (alive <> [] -> (exists b, b ∈ alive /\ b = false) ->
      ready alive
      = JObj [("ready", JBool false);
              ("workers_alive", JInt (Z.of_nat (count_true alive)));
              ("total_workers", JInt (Z.of_nat (length alive)))]
      /\ (count_true alive < length alive)%nat).
Proof.
  assert (Hall : forallb (fun b => b) alive = true <-> forall b, b ∈ alive -> b = true).
  { rewrite forallb_forall. split; intros H b Hb; apply H;
      by apply list_elem_of_In. }
  split; [|split].
  - unfold ready. destruct alive as [|a rest]; [simpl; split; [done | by intros [? _]]|].
    destruct (forallb (fun b => b) (a :: rest)) eqn:Hf; simpl.
    + split; [|done]. intros _. split; [done|]. by apply Hall.
    + split; [done|]. intros [_ H]. apply Hall in H. congruence.
  - by intros ->.
  - intros Hne (b & Hb & ->). unfold ready.
    destruct alive as [|a rest]; [done|].
    destruct (forallb (fun b => b) (a :: rest)) eqn:Hf.
    + by pose proof (proj1 Hall eq_refl false Hb).
    + split; [done|]. pose proof (count_true_le (a :: rest)).
      destruct (decide (count_true (a :: rest) = length (a :: rest))) as [Heq|Hneq];
        [|lia].
      apply count_true_all in Heq. congruence.
Qed.

Lemma ready_iff_all_alive_witness :
  ready [] = JObj [("ready", JBool false); ("reason", JStr "no-workers")]
  /\ (ready [true; false]
      = JObj [("ready", JBool false); ("workers_alive", JInt 1);
              ("total_workers", JInt 2)]
      /\ (count_true [true; false] < length [true; false])%nat).
Proof.
  split.
  - apply (proj1 (proj2 (ready_iff_all_alive []))). reflexivity.
  - apply (proj2 (proj2 (ready_iff_all_alive [true; false]))).
    + discriminate.
    + exists false. split; [|reflexivity]. right. left.
Defined.

(** ** What a batch run leaves alone *)

Lemma error_loop_frame e bs w k :
  k ∉ map i_id bs ->
  store (snd (for_each bs (mark_batch_error e) w)) !! k = store w !! k.
Proof.
  revert w. induction bs as [|b bs IH]; intros w Hk; [done|].
  apply not_elem_of_cons in Hk as [Hne Hk].
  rewrite for_each_cons, mark_batch_error_run.
  destruct (store w !! i_id b) as [r|]; [|done].
  rewrite IH by done. simpl. by rewrite !lookup_insert_ne.
Qed.

Lemma fallback_item_frame E b w k :
  k <> i_id b -> store (snd (fallback_item E b w)) !! k = store w !! k.
Proof.
  intros Hne. destruct (store w !! i_id b) as [r|] eqn:Hk.
  - destruct (fallback_item_run E b r w Hk) as (w' & Hrun & _ & Hoth & _).
    rewrite Hrun. by apply Hoth.
  - unfold fallback_item, try_except, bind, call_groq_single, post_chat, lift.
    destruct (chat_completion E _ _) as [out|e].
    + destruct (extract_returns (json_loads E) out) as (v & ->).
      unfold store_setitem. simpl. rewrite Hk. simpl. rewrite Hk. done.
    + unfold store_setitem. simpl. rewrite Hk. done.
Qed.

Lemma fallback_loop_frame E bs w k :
  k ∉ map i_id bs ->
  store (snd (for_each bs (fallback_item E) w)) !! k = store w !! k.
Proof.
  revert w. induction bs as [|b bs IH]; intros w Hk; [done|].
  apply not_elem_of_cons in Hk as [Hne Hk].
  rewrite for_each_cons. pose proof (fallback_item_frame E b w k Hne) as Hb.
  destruct (fallback_item E b w) as [[[]|e] w1]; simpl in *; [|done].
  by rewrite IH.
Qed.

Lemma element_loop_frame E xs w k :
  (forall obj, obj ∈ xs -> ~ names k obj) ->
  store (snd (for_each xs (write_batch_element E) w)) !! k = store w !! k.
Proof.
  revert w. induction xs as [|x xs IH]; intros w Hn; [done|].
  rewrite for_each_cons.
  assert (Hxs : forall obj, obj ∈ xs -> ~ names k obj)
    by (intros obj Ho; apply Hn; by right).
  destruct (write_batch_element_cases E x w)
    as [(e & ->) | [-> | (k0 & r & w' & Hk0 & _ & -> & _ & Hoth & _)]].
  - done.
  - by apply IH.
  - rewrite IH by done. apply Hoth. intros ->. by apply (Hn x ltac:(left)).
Qed.

(** X19. A batch run touches only the records of its own items and the
    records named by an element of a well-sized response: the record of
    any other request is exactly as it was, whatever the LLM answers. *)
Theorem process_batch_frame (E : env) (batch : list item) (w : world) (k : string) :
  k ∉ map i_id batch ->
  (forall content xs,
     chat_completion E (length (outbound w)) (batch_request batch) = Return content ->
     extract_json_from_text (json_loads E) content = Return (JArr xs) ->
     length xs = length batch ->
     forall obj, obj ∈ xs -> ~ names k obj) ->
  store (snd (process_batch E batch w)) !! k = store w !! k.
Proof.
  intros Hk Hn.
  destruct (chat_completion E (length (outbound w)) (batch_request batch))
    as [content|e] eqn:Hc.
  - destruct (extract_returns (json_loads E) content) as (parsed & Hp).
    rewrite (process_batch_replied E batch w content parsed Hc Hp).
    rewrite batch_handlers_store.
    destruct (is_list_of_length parsed (length batch)) eqn:Hl.
    + destruct parsed as [| | | | | xs |]; try done. simpl in Hl.
      apply Nat.eqb_eq in Hl. simpl.
      pose proof (element_loop_frame E xs (sent (batch_request batch) w) k
                    (Hn content xs eq_refl Hp Hl)) as Hf.
      destruct (for_each xs _ _) as [[[]|e] w2]; simpl in Hf; [done|].
      by rewrite error_loop_frame.
    + pose proof (fallback_loop_frame E batch (sent (batch_request batch) w) k Hk) as Hf.
      destruct (for_each batch _ _) as [[[]|e] w2]; simpl in Hf; [done|].
      by rewrite error_loop_frame.
  - rewrite (process_batch_raised E batch w e Hc), batch_handlers_store. simpl.
    by rewrite error_loop_frame.
Qed.

(** The record of [r1] is not touched by the batch made of [r0] alone
    when the response names [r0] only. *)
Lemma process_batch_frame_witness :
  let E := scenario_env digest_stub [Return reply_r0] in
  let w := two_waiting E in
  store (snd (process_batch E (take 1 (q_items (queue w))) w)) !! "r1"
  = store w !! "r1".
Proof.
  intros E w.
  apply (process_batch_frame E (take 1 (q_items (queue w))) w "r1").
  - vm_compute. intros H. apply list_elem_of_singleton in H. discriminate.
  - intros content xs Hc Hp _ obj Ho Hnames.
    vm_compute in Hc. injection Hc as <-.
    vm_compute in Hp. injection Hp as <-.
    apply list_elem_of_singleton in Ho. subst obj.
    destruct Hnames as (kvs & Heq & Hid & _). injection Heq as <-.
    vm_compute in Hid. discriminate.
Defined.

(** ** The queue stays under the backpressure limit *)



